(** * cache-envelop: the Memcached wrapper (src/Memcached.js)

    A shallow embedding of [MemcachedWrapper]: key validation, the scalar
    operations [get]/[set]/[del], and the hash and list simulation built on
    them by read, [JSON.parse], mutate, [JSON.stringify], write.

    Conventions of the embedding.
    - A JavaScript string is the list of its UTF-16 code units.
    - A JavaScript number is [NaN] or an integer, which stands for the
      double of that value; fractions, infinities and rounding are outside
      the embedding.
    - An [async] method is run to completion: the wrapper is used by one
      caller at a time, a rejected promise is the outcome [Throw].
    - Whatever the embedding does not cover evaluates to [Unmodelled], about
      which nothing is proved. *)

From Stdlib Require Import ZArith NArith List String Ascii Bool Lia.
From Stdlib Require Import Decimal DecimalN DecimalPos DecimalFacts.
From stdpp Require Import base option list gmap.

Local Open Scope Z_scope.

(** ** Strings *)

Definition jsstring := list N.

(** A literal: the code units of an ASCII text. *)
Definition js (s : string) : jsstring :=
  map N_of_ascii (list_ascii_of_string s).

(** The class [\s] of a regular expression: WhiteSpace and LineTerminator. *)
Definition is_regexp_space (c : N) : bool :=
  ((9 <=? c) && (c <=? 13) || (c =? 32) || (c =? 160) || (c =? 5760)
   || (8192 <=? c) && (c <=? 8202) || (c =? 8232) || (c =? 8233)
   || (c =? 8239) || (c =? 8287) || (c =? 12288) || (c =? 65279))%N.

(** [s.replace(/\s/g, '')] *)
Definition replace_spaces (s : jsstring) : jsstring :=
  List.filter (fun c => negb (is_regexp_space c)) s.

(** ** Values *)

(** A number is [NaN] or an integer. A double holds an integer exactly up
    to [Number.MAX_SAFE_INTEGER] on either side of 0: where the code would
    read or write another number, the embedding stops ([Unmodelled]). *)
Inductive num := NaN | Int (z : Z).

Definition max_safe_integer : Z := 9007199254740991.

Definition is_safe_integer (z : Z) : bool := Z.abs z <=? max_safe_integer.

Unset Elimination Schemes.
(** [VInherited name] is what reading [name] on a plain object yields when
    the object has no such property of its own and [Object.prototype] has:
    a built-in function, or [Object.prototype] itself for [__proto__]. An
    array hole is read as [VUndefined] and is not told apart from it. *)
Inductive value :=
| VUndefined
| VNull
| VBool (b : bool)
| VNum (n : num)
| VStr (s : jsstring)
| VArr (elems : list value)
| VObj (props : list (jsstring * value))
| VInherited (name : jsstring).
Set Elimination Schemes.

Section value_induction.
Variable P : value -> Prop.
Hypothesis Hundef : P VUndefined.
Hypothesis Hnull : P VNull.
Hypothesis Hbool : forall b, P (VBool b).
Hypothesis Hnum : forall n, P (VNum n).
Hypothesis Hstr : forall s, P (VStr s).
Hypothesis Harr : forall l, Forall P l -> P (VArr l).
Hypothesis Hobj : forall ps, Forall (fun p => P (snd p)) ps -> P (VObj ps).
Hypothesis Hinh : forall n, P (VInherited n).

Fixpoint value_ind (v : value) : P v :=
  match v with
  | VUndefined => Hundef
  | VNull => Hnull
  | VBool b => Hbool b
  | VNum n => Hnum n
  | VStr s => Hstr s
  | VArr l =>
      Harr l ((fix go (l : list value) : Forall P l :=
                 match l with
                 | [] => @List.Forall_nil _ P
                 | x :: r => @List.Forall_cons _ P x r (value_ind x) (go r)
                 end) l)
  | VObj ps =>
      Hobj ps ((fix go (ps : list (jsstring * value))
                  : Forall (fun p => P (snd p)) ps :=
                  match ps with
                  | [] => @List.Forall_nil _ _
                  | p :: r => @List.Forall_cons _ _ p r (value_ind (snd p)) (go r)
                  end) ps)
  | VInherited n => Hinh n
  end.
End value_induction.

(** Whether every number a value holds, at any depth, is [NaN] or a safe
    integer. *)
Fixpoint numbers_safe (v : value) : bool :=
  match v with
  | VNum (Int z) => is_safe_integer z
  | VArr l => forallb numbers_safe l
  | VObj ps => forallb (fun p => numbers_safe (snd p)) ps
  | _ => true
  end.

(** ToBoolean *)
Definition truthy (v : value) : bool :=
  match v with
  | VUndefined | VNull => false
  | VBool b => b
  | VNum NaN => false
  | VNum (Int z) => negb (z =? 0)
  | VStr s => match s with [] => false | _ => true end
  | VArr _ | VObj _ | VInherited _ => true
  end.

Definition is_undefined (v : value) : bool :=
  match v with VUndefined => true | _ => false end.

(** [typeof v === 'string'] *)
Definition is_string (v : value) : bool :=
  match v with VStr _ => true | _ => false end.

(** ** Outcomes *)

Inductive exn :=
| Error (msg : string)
| TypeError
| SyntaxError.

Inductive outcome (A : Type) :=
| Return (a : A)
| Throw (e : exn)
| Unmodelled.
Arguments Return {A} a.
Arguments Throw {A} e.
Arguments Unmodelled {A}.

#[global] Instance outcome_ret : MRet outcome := @Return.
#[global] Instance outcome_bind : MBind outcome := fun A B f m =>
  match m with
  | Return a => f a
  | Throw e => Throw e
  | Unmodelled => Unmodelled
  end.

(** [Number(v)] on the values whose conversion stays inside the embedding. *)
Definition ToNumber (v : value) : outcome num :=
  match v with
  | VUndefined => Return NaN
  | VNull => Return (Int 0)
  | VBool b => Return (Int (if b then 1 else 0))
  | VNum n => Return n
  | VStr _ | VArr _ | VObj _ | VInherited _ => Unmodelled
  end.

Definition num_truthy (n : num) : bool := truthy (VNum n).

(** [n >= 0] *)
Definition num_nonneg (n : num) : bool :=
  match n with NaN => false | Int z => 0 <=? z end.

(** ** The backend *)

Inductive call :=
| CallGet (key : jsstring)
| CallSet (key : jsstring) (data ttl : value)
| CallDel (key : jsstring).

(** The entries the server holds and the requests sent to it so far, the
    latest first. *)
Record backend := Backend {
  entries : gmap jsstring value;
  calls : list call
}.

Definition M (A : Type) : Type := backend -> outcome A * backend.

Definition ret {A} (a : A) : M A := fun st => (Return a, st).
Definition throw {A} (e : exn) : M A := fun st => (Throw e, st).
Definition lift {A} (o : outcome A) : M A := fun st => (o, st).
Definition bind {A B} (m : M A) (f : A -> M B) : M B := fun st =>
  match m st with
  | (Return a, st') => f a st'
  | (Throw e, st') => (Throw e, st')
  | (Unmodelled, st') => (Unmodelled, st')
  end.

Declare Scope js_scope.
Delimit Scope js_scope with js_m.
Notation "'let*' x ':=' m 'in' k" := (bind m (fun x => k))
  (at level 10, x name, m at level 100, k at level 200) : js_scope.
Notation "m ';;;' k" := (bind m (fun _ => k))
  (at level 100, k at level 200, right associativity) : js_scope.
Local Open Scope js_scope.

(** Modelled from the spec: the driver's promisified [get], [set] and
    [del] (the [memcached] package, not part of the repository). The spec
    gives them as [rawGet], [rawSet], [rawDelete] over one entry per key:
    a read yields the stored value, or [null] for an absent key; a write
    stores the value and yields it; a delete removes the entry whether or
    not it was there. Expiry and network failures are not part of the
    embedding, and a key that is not a string is left to [Unmodelled]. *)
Definition getAsync (key : value) : M value := fun st =>
  match key with
  | VStr k =>
      (Return (default VNull (entries st !! k)),
       Backend (entries st) (CallGet k :: calls st))
  | _ => (Unmodelled, st)
  end.

Definition setAsync (key data ttl : value) : M value := fun st =>
  match key with
  | VStr k =>
      (Return data,
       Backend (<[k := data]> (entries st)) (CallSet k data ttl :: calls st))
  | _ => (Unmodelled, st)
  end.

Definition delAsync (key : value) : M value := fun st =>
  match key with
  | VStr k =>
      (Return (VBool true),
       Backend (delete k (entries st)) (CallDel k :: calls st))
  | _ => (Unmodelled, st)
  end.

(** ** Objects

    A plain object is the list of its own properties in creation order,
    each key once. (ECMAScript enumerates integer-like keys first; the
    order only shows in the text [JSON.stringify] writes, which the wrapper
    reads back with [JSON.parse].) *)

Fixpoint own_lookup (k : jsstring) (ps : list (jsstring * value))
  : option value :=
  match ps with
  | [] => None
  | (k', v) :: r => if decide (k' = k) then Some v else own_lookup k r
  end.

(** CreateDataProperty: overwrite the property in place, or add it last. *)
Fixpoint own_define (k : jsstring) (v : value) (ps : list (jsstring * value))
  : list (jsstring * value) :=
  match ps with
  | [] => [(k, v)]
  | (k', v') :: r =>
      if decide (k' = k) then (k, v) :: r else (k', v') :: own_define k v r
  end.

Fixpoint own_delete (k : jsstring) (ps : list (jsstring * value))
  : list (jsstring * value) :=
  match ps with
  | [] => []
  | (k', v') :: r =>
      if decide (k' = k) then own_delete k r else (k', v') :: own_delete k r
  end.

Definition proto_key : jsstring := Eval cbv in js "__proto__".

(** The properties every plain object inherits from [Object.prototype]. *)
Definition object_prototype_names : list jsstring :=
  Eval cbv in
    map js ["constructor"; "__defineGetter__"; "__defineSetter__";
            "hasOwnProperty"; "__lookupGetter__"; "__lookupSetter__";
            "isPrototypeOf"; "propertyIsEnumerable"; "toString"; "valueOf";
            "__proto__"; "toLocaleString"]%string.

Definition inherited (k : jsstring) : bool :=
  bool_decide (k ∈ object_prototype_names).

(** Whether a value holds, at any depth, something read off
    [Object.prototype]. *)
Fixpoint has_inherited (v : value) : bool :=
  match v with
  | VInherited _ => true
  | VArr l => existsb has_inherited l
  | VObj ps => existsb (fun p => has_inherited (snd p)) ps
  | _ => false
  end.

(** [o[k]] *)
Definition get_prop (o : value) (k : jsstring) : outcome value :=
  match o with
  | VUndefined | VNull => Throw TypeError
  | VObj ps =>
      Return (match own_lookup k ps with
              | Some v => v
              | None => if inherited k then VInherited k else VUndefined
              end)
  | VBool _ | VNum _ | VStr _ | VArr _ | VInherited _ => Unmodelled
  end.

(** [o[k] = v] in strict code (a class body), yielding the object after the
    assignment. Without an own [__proto__] the assignment runs the setter
    of [Object.prototype], which adds no property (it changes the
    prototype, which the embedding follows only for prototypes free of
    built-ins); a primitive cannot take a property. *)
Definition set_prop (o : value) (k : jsstring) (v : value) : outcome value :=
  match o with
  | VUndefined | VNull => Throw TypeError
  | VBool _ | VNum _ | VStr _ =>
      if decide (k = proto_key) then Return o else Throw TypeError
  | VObj ps =>
      match own_lookup k ps with
      | Some _ => Return (VObj (own_define k v ps))
      | None =>
          if decide (k = proto_key) then
            if has_inherited v then Unmodelled else Return (VObj ps)
          else Return (VObj (own_define k v ps))
      end
  | VArr _ | VInherited _ => Unmodelled
  end.

(** [delete o[k]] *)
Definition delete_prop (o : value) (k : jsstring) : outcome value :=
  match o with
  | VObj ps => Return (VObj (own_delete k ps))
  | _ => Unmodelled
  end.

(** [Object.keys(o).length] for a truthy [o]. *)
Definition own_keys_count (o : value) : outcome Z :=
  match o with
  | VObj ps => Return (Z.of_nat (length ps))
  | VBool _ | VNum _ | VInherited _ => Return 0
  | VStr s => Return (Z.of_nat (length s))
  | VUndefined | VNull => Throw TypeError
  | VArr _ => Unmodelled
  end.

(** ** Key validation and the scalar operations *)

Definition maxLengthKey : Z := 250.

(** [key?.replace(/\s/g, '')]. A string has the [replace] of
    [String.prototype]; a boolean, a number, an array and a built-in have
    none, and neither has a plain object unless it holds one of its own:
    calling what is not a function is a [TypeError]. An object that holds
    a built-in under [replace] has it called, with a result the embedding
    does not follow. *)
Definition key_replace (key : value) : outcome value :=
  match key with
  | VUndefined | VNull => Return VUndefined
  | VStr s => Return (VStr (replace_spaces s))
  | VObj ps =>
      match own_lookup (js "replace") ps with
      | Some (VInherited _) => Unmodelled
      | _ => Throw TypeError
      end
  | VBool _ | VNum _ | VArr _ | VInherited _ => Throw TypeError
  end.

(** [trimmedKey.length], read once [trimmedKey] is known to be a string. *)
Definition string_length (v : value) : Z :=
  match v with VStr s => Z.of_nat (length s) | _ => 0 end.

Definition checkKeyValidity (key : value) : outcome unit :=
  trimmedKey ← key_replace key;
  if negb (truthy trimmedKey) then Throw (Error "The key cannot be empty")
  else if negb (is_string trimmedKey) then
    Throw (Error "The key must be a string")
  else if maxLengthKey <? string_length trimmedKey then
    Throw (Error "The key must be at least one character")
  else Return tt.

Definition get (key : value) : M value :=
  lift (checkKeyValidity key);;;
  getAsync key.

Definition set (key data ttl : value) : M value :=
  lift (checkKeyValidity key);;;
  let* n := lift (ToNumber ttl) in
  if negb (num_truthy n) || is_undefined data then
    throw (Error "Invalid arguments for set operation")
  else setAsync key data ttl.

Definition del (key : value) : M value :=
  lift (checkKeyValidity key);;;
  delAsync key;;;
  ret (VStr (js "OK")).

(** ** Decimal and hexadecimal digits *)

Fixpoint chars_of_uint (d : uint) : jsstring :=
  match d with
  | Nil => []
  | D0 d => 48%N :: chars_of_uint d
  | D1 d => 49%N :: chars_of_uint d
  | D2 d => 50%N :: chars_of_uint d
  | D3 d => 51%N :: chars_of_uint d
  | D4 d => 52%N :: chars_of_uint d
  | D5 d => 53%N :: chars_of_uint d
  | D6 d => 54%N :: chars_of_uint d
  | D7 d => 55%N :: chars_of_uint d
  | D8 d => 56%N :: chars_of_uint d
  | D9 d => 57%N :: chars_of_uint d
  end.

Definition digit_of (c : N) : option (uint -> uint) :=
  (if c =? 48 then Some D0 else if c =? 49 then Some D1
   else if c =? 50 then Some D2 else if c =? 51 then Some D3
   else if c =? 52 then Some D4 else if c =? 53 then Some D5
   else if c =? 54 then Some D6 else if c =? 55 then Some D7
   else if c =? 56 then Some D8 else if c =? 57 then Some D9
   else None)%N.

Definition is_digit (c : N) : bool := ((48 <=? c) && (c <=? 57))%N.

(** The longest prefix of decimal digits, and what follows it. *)
Fixpoint read_digits (s : jsstring) : uint * jsstring :=
  match s with
  | [] => (Nil, [])
  | c :: r =>
      match digit_of c with
      | Some D => let (d, rest) := read_digits r in (D d, rest)
      | None => (Nil, s)
      end
  end.

(** The decimal text of an integer, as [Number::toString] writes that of
    a safe integer. *)
Definition decimal (z : Z) : jsstring :=
  if z <? 0 then 45%N :: chars_of_uint (N.to_uint (Z.to_N (- z)))
  else chars_of_uint (N.to_uint (Z.to_N z)).

Definition hex_char (d : N) : N := (if d <? 10 then 48 + d else 87 + d)%N.

Definition hex_value (c : N) : option N :=
  (if (48 <=? c) && (c <=? 57) then Some (c - 48)
   else if (97 <=? c) && (c <=? 102) then Some (c - 87)
   else if (65 <=? c) && (c <=? 70) then Some (c - 55)
   else None)%N.

(** The escape [\uXXXX] of a code unit. *)
Definition unicode_escape (c : N) : jsstring :=
  [92; 117; hex_char (c / 4096 mod 16); hex_char (c / 256 mod 16);
   hex_char (c / 16 mod 16); hex_char (c mod 16)]%N.

Definition hex4_value (h1 h2 h3 h4 : N) : option N :=
  a ← hex_value h1; b ← hex_value h2; c ← hex_value h3; d ← hex_value h4;
  Some (((a * 16 + b) * 16 + c) * 16 + d)%N.

(** [ToString] of a number, where it is the decimal text. *)
Definition number_to_string (n : num) : outcome jsstring :=
  match n with
  | NaN => Return (js "NaN")
  | Int z => if is_safe_integer z then Return (decimal z) else Unmodelled
  end.

(** ToPropertyKey *)
Definition to_property_key (v : value) : outcome jsstring :=
  match v with
  | VStr s => Return s
  | VNum n => number_to_string n
  | VBool b => Return (js (if b then "true" else "false"))
  | VUndefined => Return (js "undefined")
  | VNull => Return (js "null")
  | VArr _ | VObj _ | VInherited _ => Unmodelled
  end.

(** ** JSON.stringify *)

Definition is_high_surrogate (c : N) : bool :=
  ((55296 <=? c) && (c <=? 56319))%N.
Definition is_low_surrogate (c : N) : bool :=
  ((56320 <=? c) && (c <=? 57343))%N.

(** QuoteJSONString on one code unit that is not the first half of a
    surrogate pair. *)
Definition quote_char (c : N) : jsstring :=
  (if c =? 8 then [92; 98]
   else if c =? 9 then [92; 116]
   else if c =? 10 then [92; 110]
   else if c =? 12 then [92; 102]
   else if c =? 13 then [92; 114]
   else if c =? 34 then [92; 34]
   else if c =? 92 then [92; 92]
   else if (c <? 32) || is_high_surrogate c || is_low_surrogate c
        then unicode_escape c
   else [c])%N.

Fixpoint quote_chars (s : jsstring) : jsstring :=
  match s with
  | [] => []
  | c :: r =>
      if is_high_surrogate c then
        match r with
        | d :: r' =>
            if is_low_surrogate d then c :: d :: quote_chars r'
            else quote_char c ++ quote_chars r
        | [] => quote_char c
        end
      else quote_char c ++ quote_chars r
  end.

Definition quote (s : jsstring) : jsstring :=
  34%N :: quote_chars s ++ [34%N].

Fixpoint join_tail (close : N) (l : list jsstring) : jsstring :=
  match l with
  | [] => [close]
  | x :: r => 44%N :: x ++ join_tail close r
  end.

(** The items separated by commas between an opening and a closing
    character. *)
Definition bracket (open close : N) (l : list jsstring) : jsstring :=
  match l with
  | [] => [open; close]
  | x :: r => open :: x ++ join_tail close r
  end.

Definition lit_null : jsstring := Eval cbv in js "null".
Definition lit_true : jsstring := Eval cbv in js "true".
Definition lit_false : jsstring := Eval cbv in js "false".

(** SerializeJSONProperty on the values whose numbers are [NaN] or safe
    integers, which is where [JSON_stringify] uses it: [None] is
    [undefined]. An array element without a text is written [null]; an
    object member without a text is left out. *)
Fixpoint serialize (v : value) : option jsstring :=
  match v with
  | VUndefined | VInherited _ => None
  | VNull | VNum NaN => Some lit_null
  | VBool b => Some (if b then lit_true else lit_false)
  | VNum (Int z) => Some (decimal z)
  | VStr s => Some (quote s)
  | VArr l =>
      Some (bracket 91 93 (map (fun x => default lit_null (serialize x)) l))
  | VObj ps =>
      Some (bracket 123 125
              (omap (fun p => match serialize (snd p) with
                              | Some t => Some (quote (fst p) ++ 58%N :: t)
                              | None => None
                              end) ps))
  end.

(** [JSON.stringify(v)]. Built-in functions and [Object.prototype] are not
    serialised by the embedding (a built-in held under [toJSON] would be
    called), and neither is a number other than [NaN] and the safe
    integers (a larger double is written rounded, or with an exponent). *)
Definition JSON_stringify (v : value) : outcome value :=
  if has_inherited v || negb (numbers_safe v) then Unmodelled
  else Return (match serialize v with
               | Some t => VStr t
               | None => VUndefined
               end).

(** ** JSON.parse *)

Definition is_json_space (c : N) : bool :=
  ((c =? 32) || (c =? 9) || (c =? 10) || (c =? 13))%N.

Fixpoint skip_ws (s : jsstring) : jsstring :=
  match s with
  | c :: r => if is_json_space c then skip_ws r else s
  | [] => []
  end.

Fixpoint strip_prefix (p s : jsstring) : option jsstring :=
  match p, s with
  | [], _ => Some s
  | a :: p', b :: s' => if (a =? b)%N then strip_prefix p' s' else None
  | _ :: _, [] => None
  end.

(** The character an escape [\e] stands for. *)
Definition unescape (e : N) : option N :=
  (if e =? 34 then Some 34 else if e =? 92 then Some 92
   else if e =? 47 then Some 47 else if e =? 98 then Some 8
   else if e =? 102 then Some 12 else if e =? 110 then Some 10
   else if e =? 114 then Some 13 else if e =? 116 then Some 9
   else None)%N.

(** The characters of a string literal after its opening quote, up to the
    closing one. *)
Fixpoint parse_chars (s : jsstring) : outcome (jsstring * jsstring) :=
  match s with
  | [] => Throw SyntaxError
  | c :: r =>
      if (c =? 34)%N then Return ([], r)
      else if (c =? 92)%N then
        match r with
        | [] => Throw SyntaxError
        | e :: r1 =>
            if (e =? 117)%N then
              match r1 with
              | h1 :: h2 :: h3 :: h4 :: r2 =>
                  match hex4_value h1 h2 h3 h4 with
                  | Some u =>
                      '(t, rest) ← parse_chars r2; Return (u :: t, rest)
                  | None => Throw SyntaxError
                  end
              | _ => Throw SyntaxError
              end
            else
              match unescape e with
              | Some u => '(t, rest) ← parse_chars r1; Return (u :: t, rest)
              | None => Throw SyntaxError
              end
        end
      else if (c <? 32)%N then Throw SyntaxError
      else '(t, rest) ← parse_chars r; Return (c :: t, rest)
  end.

(** What may not follow the digits of an integer: a fraction or an
    exponent, which the embedding does not read. *)
Definition continues_number (s : jsstring) : bool :=
  match s with
  | c :: _ => ((c =? 46) || (c =? 101) || (c =? 69))%N
  | [] => false
  end.

(** The text of a number. [JSON.parse] reads the double nearest to it:
    the integer itself when it is safe, which is as far as the embedding
    reads; it does not read [-0] either, which it would not tell apart
    from 0. *)
Definition parse_number (s : jsstring) : outcome (value * jsstring) :=
  let (negative, s1) :=
    match s with
    | c :: r => if (c =? 45)%N then (true, r) else (false, s)
    | [] => (false, s)
    end in
  let (d, rest) := read_digits s1 in
  match d with
  | Nil => Throw SyntaxError
  | D0 (D0 _ | D1 _ | D2 _ | D3 _ | D4 _ | D5 _ | D6 _ | D7 _ | D8 _ | D9 _) =>
      Throw SyntaxError
  | _ =>
      if continues_number rest then Unmodelled
      else
        let n := Z.of_N (N.of_uint d) in
        if negative && (n =? 0) then Unmodelled
        else if negb (is_safe_integer n) then Unmodelled
        else Return (VNum (Int (if negative then - n else n)), rest)
  end.

(** The members of an object literal, defined in order: a repeated key
    keeps its first place and takes the last value. *)
Definition build_object (ms : list (jsstring * value)) : value :=
  VObj (fold_left (fun ps m => own_define (fst m) (snd m) ps) ms []).

(** Past white space, the text after the character [c] when that is the
    next one. *)
Definition starts_with (c : N) (s : jsstring) : option jsstring :=
  match skip_ws s with
  | c' :: r => if (c' =? c)%N then Some r else None
  | [] => None
  end.

Fixpoint parse_value (fuel : nat) (s : jsstring) {struct fuel}
  : outcome (value * jsstring) :=
  match fuel with
  | O => Unmodelled
  | S fuel =>
      match skip_ws s with
      | [] => Throw SyntaxError
      | c :: r =>
          if (c =? 123)%N then
            match starts_with 125 r with
            | Some r' => Return (VObj [], r')
            | None =>
                '(ms, r') ← parse_members fuel r; Return (build_object ms, r')
            end
          else if (c =? 91)%N then
            match starts_with 93 r with
            | Some r' => Return (VArr [], r')
            | None => '(l, r') ← parse_elements fuel r; Return (VArr l, r')
            end
          else if (c =? 34)%N then
            '(t, r') ← parse_chars r; Return (VStr t, r')
          else if (c =? 45)%N || is_digit c then parse_number (c :: r)
          else
            match strip_prefix lit_null (c :: r) with
            | Some r' => Return (VNull, r')
            | None =>
                match strip_prefix lit_true (c :: r) with
                | Some r' => Return (VBool true, r')
                | None =>
                    match strip_prefix lit_false (c :: r) with
                    | Some r' => Return (VBool false, r')
                    | None => Throw SyntaxError
                    end
                end
            end
      end
  end
with parse_elements (fuel : nat) (s : jsstring) {struct fuel}
  : outcome (list value * jsstring) :=
  match fuel with
  | O => Unmodelled
  | S fuel =>
      '(v, r) ← parse_value fuel s;
      match starts_with 44 r with
      | Some r' => '(l, r'') ← parse_elements fuel r'; Return (v :: l, r'')
      | None =>
          match starts_with 93 r with
          | Some r' => Return ([v], r')
          | None => Throw SyntaxError
          end
      end
  end
with parse_members (fuel : nat) (s : jsstring) {struct fuel}
  : outcome (list (jsstring * value) * jsstring) :=
  match fuel with
  | O => Unmodelled
  | S fuel =>
      match starts_with 34 s with
      | Some r =>
          '(k, r1) ← parse_chars r;
          match starts_with 58 r1 with
          | Some r2 =>
              '(v, r3) ← parse_value fuel r2;
              match starts_with 44 r3 with
              | Some r4 =>
                  '(ms, r5) ← parse_members fuel r4; Return ((k, v) :: ms, r5)
              | None =>
                  match starts_with 125 r3 with
                  | Some r4 => Return ([(k, v)], r4)
                  | None => Throw SyntaxError
                  end
              end
          | None => Throw SyntaxError
          end
      | None => Throw SyntaxError
      end
  end.

(** The text of one JSON value and nothing after it but white space. *)
Definition parse_text (s : jsstring) : outcome value :=
  '(v, r) ← parse_value (S (2 * length s)) s;
  match skip_ws r with
  | [] => Return v
  | _ :: _ => Throw SyntaxError
  end.

(** [JSON.parse(v)] for the text [v]. *)
Definition JSON_parse (v : value) : outcome value :=
  match v with
  | VStr s => parse_text s
  | _ => Unmodelled
  end.

(** ** Arrays *)

Definition num_add (a b : num) : num :=
  match a, b with Int x, Int y => Int (x + y) | _, _ => NaN end.

Definition num_sub (a b : num) : num :=
  match a, b with Int x, Int y => Int (x - y) | _, _ => NaN end.

(** ToIntegerOrInfinity *)
Definition to_integer (n : num) : Z :=
  match n with NaN => 0 | Int z => z end.

(** The position an argument of [slice] or [splice] stands for in a
    sequence of [len] elements: counted from the end when negative, and
    clamped to the sequence. *)
Definition relative_index (len i : Z) : Z :=
  if i <? 0 then Z.max (len + i) 0 else Z.min i len.

(** [l.slice(start, finish)] and [l.slice(start)] *)
Definition slice {A} (l : list A) (start : Z) (finish : option Z) : list A :=
  let len := Z.of_nat (length l) in
  let k := relative_index len start in
  let final := match finish with
               | Some e => relative_index len e
               | None => len
               end in
  take (Z.to_nat (final - k)) (drop (Z.to_nat k) l).

(** What is left of [l] after [l.splice(start, count)] and
    [l.splice(start)]. *)
Definition splice {A} (l : list A) (start : Z) (count : option Z) : list A :=
  let len := Z.of_nat (length l) in
  let k := relative_index len start in
  let removed := match count with
                 | Some c => Z.min (Z.max c 0) (len - k)
                 | None => len - k
                 end in
  take (Z.to_nat k) l ++ drop (Z.to_nat (k + removed)) l.

(** [l[i] = data]: an index below 2^32 - 1 writes the element, padding
    with holes past the end; any other number names a property that is not
    an element. *)
Definition array_store (l : list value) (i : Z) (data : value) : list value :=
  if (0 <=? i) && (i <? 4294967295) then
    if i <? Z.of_nat (length l) then <[Z.to_nat i := data]> l
    else l ++ replicate (Z.to_nat (i - Z.of_nat (length l))) VUndefined
           ++ [data]
  else l.

(** [o.name(...)] for a method [name] of arrays that [o], not an array,
    does not have. *)
Definition not_a_function (o : value) (name : jsstring) : outcome value :=
  match o with
  | VUndefined | VNull | VBool _ | VNum _ | VStr _ => Throw TypeError
  | VObj ps =>
      match own_lookup name ps with
      | Some (VInherited _) => Unmodelled
      | _ => Throw TypeError
      end
  | VArr _ | VInherited _ => Unmodelled
  end.

(** [list[n]] *)
Definition get_index (list : value) (n : num) : outcome value :=
  match list, n with
  | VArr l, Int i =>
      Return (if 0 <=? i then default VUndefined (l !! Z.to_nat i)
              else VUndefined)
  | VStr s, Int i =>
      Return (if 0 <=? i then
                match s !! Z.to_nat i with
                | Some c => VStr [c]
                | None => VUndefined
                end
              else VUndefined)
  | (VArr _ | VStr _), NaN => Return VUndefined
  | (VBool _ | VNum _), _ => Return VUndefined
  | _, _ => k ← number_to_string n; get_prop list k
  end.

(** [list[n] = data], yielding the list after the assignment. *)
Definition set_index (list : value) (n : num) (data : value) : outcome value :=
  match list, n with
  | VArr l, Int i => Return (VArr (array_store l i data))
  | VArr l, NaN => Return (VArr l)
  | _, _ => k ← number_to_string n; set_prop list k data
  end.

(** [list.push(data)] and [list.unshift(data)], yielding the list after
    the call. *)
Definition call_push (list data : value) : outcome value :=
  match list with
  | VArr l => Return (VArr (l ++ [data]))
  | _ => not_a_function list (js "push")
  end.

Definition call_unshift (list data : value) : outcome value :=
  match list with
  | VArr l => Return (VArr (data :: l))
  | _ => not_a_function list (js "unshift")
  end.

(** [list.slice(start, finish)]; a string has [slice] too. *)
Definition call_slice (list : value) (start : num) (finish : option num)
  : outcome value :=
  match list with
  | VArr l => Return (VArr (slice l (to_integer start) (to_integer <$> finish)))
  | VStr s => Return (VStr (slice s (to_integer start) (to_integer <$> finish)))
  | _ => not_a_function list (js "slice")
  end.

(** [list.splice(start, count)], yielding the list after the call. *)
Definition call_splice (list : value) (start : num) (count : option num)
  : outcome value :=
  match list with
  | VArr l =>
      Return (VArr (splice l (to_integer start) (to_integer <$> count)))
  | _ => not_a_function list (js "splice")
  end.

(** [list.length] *)
Definition get_length (list : value) : outcome value :=
  match list with
  | VArr l => Return (VNum (Int (Z.of_nat (length l))))
  | VStr s => Return (VNum (Int (Z.of_nat (length s))))
  | VBool _ | VNum _ => Return VUndefined
  | _ => get_prop list (js "length")
  end.

(** [list.length = 0], yielding the list after the assignment. *)
Definition clear_length (list : value) : outcome value :=
  match list with
  | VArr _ => Return (VArr [])
  | _ => set_prop list (js "length") (VNum (Int 0))
  end.

(** ** The hash simulation *)

(** A parameter with a default: [v = d] in a parameter list, and
    [{ name = d }] in a destructuring. *)
Definition default_param (v d : value) : value :=
  if is_undefined v then d else v.

Definition hashSet (key field data ttl : value) : M value :=
  lift (checkKeyValidity key);;;
  let* first := get key in
  let* hash :=
    (if truthy first then
       let* again := get key in lift (JSON_parse again)
     else ret (VObj [])) in
  if is_string field then
    let* hash := lift (k ← to_property_key field; set_prop hash k data) in
    let* text := lift (JSON_stringify hash) in
    set key text ttl;;;
    ret VUndefined
  else throw (Error "The field name must be a string").

Definition hashGet (key field : value) : M value :=
  lift (checkKeyValidity key);;;
  let* hashString := get key in
  let* hash :=
    (if truthy hashString then lift (JSON_parse hashString)
     else ret VUndefined) in
  if truthy field then lift (k ← to_property_key field; get_prop hash k)
  else ret hash.

Definition hashDel (key field options : value) : M value :=
  lift (checkKeyValidity key);;;
  if negb (truthy field) then del key
  else
    let* hashString := get key in
    if negb (truthy hashString) then ret (VStr (js "Data not found"))
    else
      let* parsed := lift (JSON_parse hashString) in
      let hash := if truthy parsed then parsed else VObj [] in
      let* k := lift (to_property_key field) in
      let* current := lift (get_prop hash k) in
      if is_undefined current then ret (VStr (js "Data not found"))
      else
        let* hash := lift (delete_prop hash k) in
        let* text := lift (JSON_stringify hash) in
        let* ttl := lift (get_prop options (js "ttl")) in
        set key text ttl;;;
        ret (VStr (js "OK")).

(** ** The list simulation *)

(** [!options || !Object.keys(options).length] *)
Definition no_options (options : value) : outcome bool :=
  if negb (truthy options) then Return true
  else n ← own_keys_count options; Return (n =? 0).

Definition listSet (key data ttl options : value) : M value :=
  let options := default_param options (VObj []) in
  lift (checkKeyValidity key);;;
  let* listString := get key in
  let* list :=
    (if truthy listString then lift (JSON_parse listString)
     else ret (VArr [])) in
  let* index := lift (get_prop options (js "index")) in
  let* push := lift (get_prop options (js "push")) in
  let push := default_param push (VBool false) in
  let* itemIndex := lift (ToNumber index) in
  let* list :=
    lift (if num_truthy itemIndex then set_index list itemIndex data
          else if truthy push then call_push list data
          else call_unshift list data) in
  let* text := lift (JSON_stringify list) in
  set key text ttl.

Definition listGet (key options : value) : M value :=
  let options := default_param options (VObj []) in
  let* listString := get key in
  let* list :=
    (if truthy listString then lift (JSON_parse listString)
     else ret VUndefined) in
  let* none := lift (no_options options) in
  if none then ret list
  else
    let* index := lift (get_prop options (js "index")) in
    let* start := lift (get_prop options (js "start")) in
    let* finish := lift (get_prop options (js "end")) in
    let* itemIndex := lift (ToNumber index) in
    let* startIndex := lift (ToNumber start) in
    let* endIndex := lift (ToNumber finish) in
    if truthy list then
      if num_truthy itemIndex then lift (get_index list itemIndex)
      else if num_truthy startIndex && num_truthy endIndex then
        lift (call_slice list startIndex (Some (num_add endIndex (Int 1))))
      else if num_truthy startIndex && negb (num_truthy endIndex) then
        lift (call_slice list startIndex None)
      else if negb (num_truthy startIndex) && num_truthy endIndex then
        lift (call_slice list (Int 0) (Some (num_add endIndex (Int 1))))
      else if negb (num_truthy startIndex) && negb (num_truthy endIndex) then
        ret list
      else ret VUndefined
    else ret VUndefined.

Definition listDel (key ttl options : value) : M value :=
  let options := default_param options (VObj []) in
  lift (checkKeyValidity key);;;
  let* none := lift (no_options options) in
  if none then del key
  else
    let* listString := get key in
    let* list :=
      (if truthy listString then lift (JSON_parse listString)
       else ret (VArr [])) in
    let* len := lift (get_length list) in
    if negb (truthy len) then ret VUndefined
    else
      let* index := lift (get_prop options (js "index")) in
      let* start := lift (get_prop options (js "start")) in
      let* finish := lift (get_prop options (js "end")) in
      let* itemIndex := lift (ToNumber index) in
      let* startIndex := lift (ToNumber start) in
      let* endIndex := lift (ToNumber finish) in
      let* list :=
        lift (if num_nonneg itemIndex then
                call_splice list itemIndex (Some (Int 1))
              else if num_nonneg startIndex && num_nonneg endIndex then
                call_splice list startIndex
                  (Some (num_add (num_sub endIndex startIndex) (Int 1)))
              else if num_nonneg startIndex then
                call_splice list startIndex None
              else if num_nonneg endIndex then
                call_splice list (Int 0) (Some (num_add endIndex (Int 1)))
              else clear_length list) in
      let* text := lift (JSON_stringify list) in
      set key text ttl;;;
      ret VUndefined.

(** ** Vocabulary of the statements *)

(** A key the wrapper lets through. *)
Definition valid_key (key : value) : Prop := checkKeyValidity key = Return tt.

(** The values JSON text stands for: what [JSON.parse] yields, and what it
    yields back after [JSON.stringify]. Of the numbers these are the safe
    integers. *)
Fixpoint json_representable (v : value) : bool :=
  match v with
  | VNull | VBool _ | VStr _ => true
  | VNum (Int z) => is_safe_integer z
  | VArr l => forallb json_representable l
  | VObj ps =>
      bool_decide (NoDup (map fst ps))
      && forallb (fun p => json_representable (snd p)) ps
  | VUndefined | VNum NaN | VInherited _ => false
  end.

(** Fuel with which [parse_value] reads the text of a value back. *)
Fixpoint need (v : value) : nat :=
  match v with
  | VArr l => S (list_sum (map (fun x => S (need x)) l))
  | VObj ps => S (list_sum (map (fun p => S (need (snd p))) ps))
  | _ => 1
  end.

(** What may follow the text of a value: not a character that would
    lengthen a number. *)
Definition ends_number (s : jsstring) : bool :=
  match s with
  | [] => true
  | c :: _ => negb (is_digit c) && negb (continues_number s)
  end.

(** An options object [{ name: n }] with a single numeric member, and one
    with two. *)
Definition option1 (name : string) (n : Z) : value :=
  VObj [(js name, VNum (Int n))].

Definition option2 (name1 : string) (n1 : Z) (name2 : string) (n2 : Z)
  : value :=
  VObj [(js name1, VNum (Int n1)); (js name2, VNum (Int n2))].

(** The outcome of an operation, and the backend it leaves. *)
Definition result_of {A} (m : M A) (st : backend) : outcome A := fst (m st).
Definition state_after {A} (m : M A) (st : backend) : backend := snd (m st).

(** An operation that fails without having reached the backend. *)
Definition rejects_before_backend {A} (m : M A) : Prop :=
  forall st, exists e, m st = (Throw e, st).

(** Decimal digits as [N.to_uint] writes them: at least one, and no zero
    in front of another digit. *)
Definition canonical_digits (d : uint) : Prop :=
  match d with
  | Nil => False
  | D0 Nil => True
  | D0 _ => False
  | _ => True
  end.

(** The first character of the text of a value: not white space, and not
    a closing bracket. *)
Definition opens_value (c : N) : Prop :=
  is_json_space c = false /\ c <> 93%N /\ c <> 125%N.

(** The text of an array element, and of an object member. *)
Definition element_text (x : value) : jsstring :=
  default lit_null (serialize x).

Definition member_text (p : jsstring * value) : jsstring :=
  quote (fst p) ++ 58%N :: element_text (snd p).

Definition reads_back (v : value) : Prop :=
  forall fuel rest,
    (need v <= fuel)%nat -> ends_number rest = true ->
    exists t, serialize v = Some t
              /\ parse_value fuel (t ++ rest) = Return (v, rest).

(** A key whose [replace] the validation calls and the embedding does not
    follow: an object that holds a built-in under [replace]. *)
Definition calls_own_replace (key : value) : bool :=
  match key with
  | VObj ps =>
      match own_lookup (js "replace") ps with
      | Some (VInherited _) => true
      | _ => false
      end
  | _ => false
  end.

(** Every operation that takes a key, with any other arguments. *)
Definition all_reject_before_backend (key : value) : Prop :=
  forall field data ttl options,
    rejects_before_backend (get key)
    /\ rejects_before_backend (set key data ttl)
    /\ rejects_before_backend (del key)
    /\ rejects_before_backend (hashSet key field data ttl)
    /\ rejects_before_backend (hashGet key field)
    /\ rejects_before_backend (hashDel key field options)
    /\ rejects_before_backend (listSet key data ttl options)
    /\ rejects_before_backend (listGet key options)
    /\ rejects_before_backend (listDel key ttl options).

(** A key of 251 characters: 250 letters and a space. *)
Definition key_of_251_with_space : jsstring := replicate 250 97%N ++ [32%N].


(** What [hashSet] starts from: no entry, or an entry that decodes to a
    mapping. *)
Definition holds_hash_or_nothing (k : jsstring) (st : backend)
  (ps : list (jsstring * value)) : Prop :=
  (entries st !! k = None /\ ps = [])
  \/ exists t, entries st !! k = Some (VStr t)
               /\ JSON_parse (VStr t) = Return (VObj ps).

(** ** Construction

    The constructors and accessors of the two wrappers, [MemcachedWrapper]
    (src/Memcached.js) and [RedisWrapper] (src/Redis.js), up to the
    creation of the driver's client. *)

(** [{...v}] continued: the own properties of [v] defined, in order, over
    the properties [ps] gathered so far. *)
Definition spread_over (ps : list (jsstring * value)) (v : value)
  : outcome (list (jsstring * value)) :=
  match v with
  | VObj qs =>
      Return (fold_left (fun acc m => own_define (fst m) (snd m) acc) qs ps)
  | VUndefined | VNull | VBool _ | VNum _ => Return ps
  | VStr _ | VArr _ | VInherited _ => Unmodelled
  end.

(** [{...a, ...b}] *)
Definition object_spread (a b : value) : outcome value :=
  ps ← spread_over [] a; qs ← spread_over ps b; Return (VObj qs).

Module MemcachedWrapper.

(** The private fields [#connectionArgs] and [#options]. *)
Record fields := Fields {
  private_connectionArgs : value;
  private_options : value
}.

(** The fields as their initialisers leave them. *)
Definition initial : fields :=
  Fields (VStr (js "127.0.0.1:11211")) (VObj [(js "timeout", VNum (Int 300))]).

(** [set connectionArgs(value)] *)
Definition set_connectionArgs (arg : value) (this : fields) : fields :=
  if truthy arg then Fields arg (private_options this) else this.

(** [set options(value)] *)
Definition set_options (arg : value) (this : fields) : outcome fields :=
  if truthy arg then
    merged ← object_spread (private_options this) arg;
    Return (Fields (private_connectionArgs this) merged)
  else Return this.

(** [get connectionArgs()] and [get options()] *)
Definition get_connectionArgs (this : fields) : value :=
  private_connectionArgs this.
Definition get_options (this : fields) : value := private_options this.

(** The constructor, up to the creation of the driver's client, which is
    given [get_connectionArgs] and [get_options] of the result. *)
Definition constructor (connectionArgs options : value) : outcome fields :=
  let options := default_param options (VObj []) in
  set_options options (set_connectionArgs connectionArgs initial).

End MemcachedWrapper.

Module RedisWrapper.

(** The private field [#connectionArgs]. *)
Definition initial : value := VStr (js "127.0.0.1:6379").

(** [set connectionArgs(value)] *)
Definition set_connectionArgs (arg this : value) : value :=
  if truthy arg then arg else this.

(** The constructor, up to the creation of the driver's client, which is
    given the resulting [connectionArgs]. *)
Definition constructor (connectionArgs : value) : value :=
  set_connectionArgs connectionArgs initial.

End RedisWrapper.

(** ** Vocabulary of the further statements *)

(** The member [name: n] of an options object, when given. *)
Definition member (name : string) (n : option Z) : list (jsstring * value) :=
  match n with
  | Some z => [(js name, VNum (Int z))]
  | None => []
  end.

(** The options [{index, start, end}] of [listGet] and [listDel], each
    member given or not. *)
Definition list_options (index start finish : option Z) : value :=
  VObj (member "index" index ++ member "start" start ++ member "end" finish).


(** [Number] of a member given or not. *)
Definition given (n : option Z) : num :=
  match n with Some z => Int z | None => NaN end.

(** A member that is given and is not zero. *)
Definition nonzero (n : option Z) : bool := num_truthy (given n).

(** A member that is given and is not negative. *)
Definition nonneg (n : option Z) : bool := num_nonneg (given n).

(** What a list operation starts from: no entry, read as the empty
    sequence, or an entry that decodes to a sequence. *)
Definition holds_list (k : jsstring) (st : backend) (l : list value) : Prop :=
  (entries st !! k = None /\ l = [])
  \/ exists t, entries st !! k = Some (VStr t)
               /\ JSON_parse (VStr t) = Return (VArr l).

(** The backend [st'] is [st] with one more entry written: under [k], a
    text that decodes to [v]. *)
Definition stores (k : jsstring) (v : value) (st st' : backend) : Prop :=
  exists t, entries st' = <[k := VStr t]> (entries st)
            /\ JSON_parse (VStr t) = Return v.

(** An operation that leaves every entry as it was. *)
Definition keeps_entries {A} (m : M A) : Prop :=
  forall st, entries (state_after m st) = entries st.

(** An operation that leaves the entries of all keys but [k] as they
    were. *)
Definition touches_only {A} (k : jsstring) (m : M A) : Prop :=
  forall st k', k' <> k ->
    entries (state_after m st) !! k' = entries st !! k'.

(** An operation that changes an entry only when it returns. *)
Definition writes_only_on_return {A} (m : M A) : Prop :=
  forall st, (exists a, result_of m st = Return a)
             \/ entries (state_after m st) = entries st.


(** What reading a member of an options object yields. *)
Definition member_value (n : option Z) : value :=
  match n with Some z => VNum (Int z) | None => VUndefined end.

(** A backend whose one entry, under the key "k", is a given text. *)
Definition st_k (text : string) : backend :=
  Backend {[ js "k" := VStr (js text) ]} [].

(** The reads [hashSet] sends before it looks at the field: one, and a
    second one when the first finds an entry. *)
Definition hash_reads (k : jsstring) (st : backend) : list call :=
  match entries st !! k with
  | Some _ => [CallGet k; CallGet k]
  | None => [CallGet k]
  end.

(** The text of the hash with the one field [a], of value 1, and a
    backend that holds it under the key "k". *)
Definition text_a1 : jsstring := [123; 34; 97; 34; 58; 49; 125]%N.
Definition st_a1 : backend := Backend {[ js "k" := VStr text_a1 ]} [].

(** A bind that returned: its first computation returned too. *)
Ltac bind_inversion H :=
  match type of H with
  | (?m ≫= _) = Return _ =>
      let E := fresh "E" in
      destruct m as [[? ?]| |] eqn:E; [|discriminate H|discriminate H];
      cbn [mbind outcome_bind] in H
  end.

(** ** Strings read back *)

Lemma parse_chars_unicode h1 h2 h3 h4 t :
  parse_chars (92 :: 117 :: h1 :: h2 :: h3 :: h4 :: t)%N =
  match hex4_value h1 h2 h3 h4 with
  | Some u => '(w, rest) ← parse_chars t; Return (u :: w, rest)
  | None => Throw SyntaxError
  end.
Proof. reflexivity. Qed.

Lemma parse_chars_literal c t :
  c <> 34%N -> c <> 92%N -> (c <? 32)%N = false ->
  parse_chars (c :: t) = '(w, rest) ← parse_chars t; Return (c :: w, rest).
Proof.
  intros H1 H2 H3. simpl.
  destruct (N.eqb_spec c 34); [contradiction|].
  destruct (N.eqb_spec c 92); [contradiction|].
  now rewrite H3.
Qed.

Lemma hex_value_char d : (d < 16)%N -> hex_value (hex_char d) = Some d.
Proof.
  intros Hd. unfold hex_char, hex_value.
  destruct (N.ltb_spec d 10).
  - destruct (N.leb_spec 48 (48 + d)), (N.leb_spec (48 + d) 57); try lia.
    simpl. f_equal. lia.
  - destruct (N.leb_spec 48 (87 + d)), (N.leb_spec (87 + d) 57); try lia.
    destruct (N.leb_spec 97 (87 + d)), (N.leb_spec (87 + d) 102); try lia.
    simpl. f_equal. lia.
Qed.

Lemma hex_digits_sum c :
  (c < 65536)%N ->
  ((((c / 4096 mod 16) * 16 + c / 256 mod 16) * 16 + c / 16 mod 16) * 16
   + c mod 16 = c)%N.
Proof. intros Hc. zify. Z.to_euclidean_division_equations. lia. Qed.

Lemma hex4_value_escape c :
  (c < 65536)%N ->
  hex4_value (hex_char (c / 4096 mod 16)) (hex_char (c / 256 mod 16))
    (hex_char (c / 16 mod 16)) (hex_char (c mod 16)) = Some c.
Proof.
  intros Hc. unfold hex4_value.
  rewrite !hex_value_char by (apply N.mod_lt; lia).
  simpl. f_equal. now apply hex_digits_sum.
Qed.

Lemma parse_chars_quote_char c t :
  parse_chars (quote_char c ++ t) =
  '(w, rest) ← parse_chars t; Return (c :: w, rest).
Proof.
  unfold quote_char.
  destruct (N.eqb_spec c 8) as [->|?]; [reflexivity|].
  destruct (N.eqb_spec c 9) as [->|?]; [reflexivity|].
  destruct (N.eqb_spec c 10) as [->|?]; [reflexivity|].
  destruct (N.eqb_spec c 12) as [->|?]; [reflexivity|].
  destruct (N.eqb_spec c 13) as [->|?]; [reflexivity|].
  destruct (N.eqb_spec c 34) as [->|?]; [reflexivity|].
  destruct (N.eqb_spec c 92) as [->|?]; [reflexivity|].
  destruct ((c <? 32)%N || is_high_surrogate c || is_low_surrogate c) eqn:E.
  - unfold unicode_escape. cbn [app]. rewrite parse_chars_unicode.
    rewrite hex4_value_escape; [reflexivity|].
    unfold is_high_surrogate, is_low_surrogate in E.
    destruct (N.ltb_spec c 32); [lia|].
    destruct (N.leb_spec c 56319), (N.leb_spec c 57343);
      rewrite ?andb_false_r in E; simpl in E; try discriminate; lia.
  - cbn [app]. apply parse_chars_literal; try assumption.
    destruct (c <? 32)%N; [discriminate|reflexivity].
Qed.

Lemma parse_chars_quote_chars s rest :
  parse_chars (quote_chars s ++ 34%N :: rest) = Return (s, rest).
Proof.
  remember (length s) as n eqn:Hn.
  assert (Hle : (length s <= n)%nat) by lia. clear Hn.
  revert s Hle. induction n as [|n IH]; intros s Hle.
  - destruct s; [reflexivity|simpl in Hle; lia].
  - destruct s as [|c r]; [reflexivity|]. simpl in Hle.
    assert (Hstep : parse_chars ((quote_char c ++ quote_chars r) ++ 34%N :: rest)
                    = Return (c :: r, rest)).
    { rewrite <- app_assoc, parse_chars_quote_char, IH by lia. reflexivity. }
    simpl quote_chars.
    destruct (is_high_surrogate c) eqn:Hh; [|exact Hstep].
    destruct r as [|d r'].
    + rewrite app_nil_r in Hstep. exact Hstep.
    + destruct (is_low_surrogate d) eqn:Hl; [|exact Hstep].
      unfold is_high_surrogate in Hh. unfold is_low_surrogate in Hl.
      apply andb_true_iff in Hh as [Hh1 Hh2]. apply andb_true_iff in Hl as [Hl1 Hl2].
      apply N.leb_le in Hh1, Hh2, Hl1, Hl2.
      cbn [app].
      rewrite parse_chars_literal by (try apply N.ltb_ge; lia).
      rewrite parse_chars_literal by (try apply N.ltb_ge; lia).
      simpl in Hle. rewrite IH by lia. reflexivity.
Qed.

Lemma parse_chars_quote s rest :
  parse_chars (quote_chars s ++ [34%N] ++ rest) = Return (s, rest).
Proof. apply parse_chars_quote_chars. Qed.

(** ** Integers read back *)

Lemma nzhead_not_zero d : match nzhead d with D0 _ => False | _ => True end.
Proof. induction d; simpl; auto. Qed.

Lemma unorm_canonical d : canonical_digits (unorm d).
Proof.
  unfold unorm. pose proof (nzhead_not_zero d) as H.
  destruct (nzhead d); cbn; try exact I; contradiction.
Qed.

Lemma to_uint_canonical n : canonical_digits (N.to_uint n).
Proof.
  rewrite <- (DecimalN.Unsigned.of_to n) at 1.
  rewrite DecimalN.Unsigned.to_of. apply unorm_canonical.
Qed.

Lemma digit_of_not_digit c : is_digit c = false -> digit_of c = None.
Proof.
  unfold is_digit, digit_of. intros H.
  repeat match goal with
         | |- context [(c =? ?n)%N] =>
             destruct (N.eqb_spec c n) as [->|?]; [discriminate H|]
         end.
  reflexivity.
Qed.

Lemma read_digits_chars d rest :
  ends_number rest = true ->
  read_digits (chars_of_uint d ++ rest) = (d, rest).
Proof.
  intros Hrest. induction d; simpl; rewrite ?IHd; try reflexivity.
  destruct rest as [|c r]; [reflexivity|]. simpl in *.
  apply andb_true_iff in Hrest as [Hd _].
  rewrite digit_of_not_digit; [reflexivity|].
  now destruct (is_digit c).
Qed.

Lemma ends_number_continues rest :
  ends_number rest = true -> continues_number rest = false.
Proof.
  destruct rest as [|c r]; [reflexivity|]. unfold ends_number.
  intros H. apply andb_true_iff in H as [_ H].
  now destruct (continues_number (c :: r)).
Qed.

Lemma parse_number_digits (negative : bool) d rest :
  canonical_digits d -> ends_number rest = true ->
  negative && (Z.of_N (N.of_uint d) =? 0) = false ->
  is_safe_integer (Z.of_N (N.of_uint d)) = true ->
  (let (u, r) := read_digits (chars_of_uint d ++ rest) in
   match u with
   | Nil => Throw SyntaxError
   | D0 (D0 _ | D1 _ | D2 _ | D3 _ | D4 _ | D5 _ | D6 _ | D7 _ | D8 _ | D9 _) =>
       Throw SyntaxError
   | _ =>
       if continues_number r then Unmodelled
       else
         let n := Z.of_N (N.of_uint u) in
         if negative && (n =? 0) then Unmodelled
         else if negb (is_safe_integer n) then Unmodelled
         else Return (VNum (Int (if negative then - n else n)), r)
   end) =
  Return (VNum (Int (if negative then - Z.of_N (N.of_uint d)
                     else Z.of_N (N.of_uint d))), rest).
Proof.
  intros Hd Hrest Hzero Hsafe. rewrite read_digits_chars by assumption.
  rewrite (ends_number_continues rest Hrest). cbv zeta.
  rewrite Hzero, Hsafe. cbn [negb].
  destruct d as [|d'| | | | | | | | |]; try contradiction; try reflexivity.
  destruct d'; try contradiction. reflexivity.
Qed.

Lemma chars_of_uint_head d :
  canonical_digits d ->
  exists c t, chars_of_uint d = c :: t /\ is_digit c = true.
Proof. destruct d; simpl; try contradiction; eauto. Qed.

Lemma is_safe_integer_abs z :
  is_safe_integer (Z.abs z) = is_safe_integer z.
Proof. unfold is_safe_integer. now rewrite Z.abs_idemp. Qed.

Lemma parse_number_decimal z rest :
  is_safe_integer z = true -> ends_number rest = true ->
  parse_number (decimal z ++ rest) = Return (VNum (Int z), rest).
Proof.
  intros Hsafe Hrest. unfold decimal.
  destruct (Z.ltb_spec z 0) as [Hneg|Hpos].
  - cbn [app]. unfold parse_number.
    replace ((45 =? 45)%N) with true by reflexivity.
    rewrite (parse_number_digits true);
      rewrite ?DecimalN.Unsigned.of_to; auto using to_uint_canonical.
    + replace (- Z.of_N (Z.to_N (- z))) with z by lia. reflexivity.
    + cbn [andb]. apply Z.eqb_neq. lia.
    + replace (Z.of_N (Z.to_N (- z))) with (Z.abs z) by lia.
      now rewrite is_safe_integer_abs.
  - destruct (chars_of_uint_head (N.to_uint (Z.to_N z)))
      as (c & t & Hc & Hdigit); [apply to_uint_canonical|].
    assert (Hminus : (c =? 45)%N = false).
    { unfold is_digit in Hdigit. apply andb_true_iff in Hdigit as [H1 _].
      apply N.leb_le in H1. apply N.eqb_neq. lia. }
    assert (Hz : Z.of_N (N.of_uint (N.to_uint (Z.to_N z))) = z).
    { rewrite DecimalN.Unsigned.of_to. lia. }
    pose proof (parse_number_digits false _ rest
                  (to_uint_canonical (Z.to_N z)) Hrest eq_refl) as Hdigits.
    rewrite Hz in Hdigits. specialize (Hdigits Hsafe).
    unfold parse_number. rewrite Hc in *. cbn [app] in *. rewrite Hminus.
    now rewrite Hdigits.
Qed.

Lemma decimal_head z :
  exists c t, decimal z = c :: t /\ (c = 45%N \/ is_digit c = true).
Proof.
  unfold decimal. destruct (z <? 0); [eauto|].
  destruct (chars_of_uint_head (N.to_uint (Z.to_N z)))
    as (c & t & Hc & Hdigit); [apply to_uint_canonical|eauto].
Qed.

(** ** Values read back *)

Lemma bind_return {A B} (a : A) (f : A -> outcome B) : (Return a ≫= f) = f a.
Proof. reflexivity. Qed.

Lemma skip_ws_head c r : is_json_space c = false -> skip_ws (c :: r) = c :: r.
Proof. intros H. simpl. now rewrite H. Qed.

Lemma starts_with_hit c r :
  is_json_space c = false -> starts_with c (c :: r) = Some r.
Proof.
  intros H. unfold starts_with. rewrite skip_ws_head by assumption.
  now rewrite N.eqb_refl.
Qed.

Lemma starts_with_miss c c' r :
  is_json_space c' = false -> c' <> c -> starts_with c (c' :: r) = None.
Proof.
  intros H Hne. unfold starts_with. rewrite skip_ws_head by assumption.
  now destruct (N.eqb_spec c' c).
Qed.

Lemma digit_opens_value c : c = 45%N \/ is_digit c = true -> opens_value c.
Proof.
  unfold opens_value, is_digit, is_json_space. intros [->|H].
  - repeat split; try reflexivity; discriminate.
  - apply andb_true_iff in H as [H1 H2]. apply N.leb_le in H1, H2.
    repeat split; try lia.
    repeat (apply orb_false_iff; split); apply N.eqb_neq; lia.
Qed.

Lemma serialize_head v t :
  serialize v = Some t -> exists c t', t = c :: t' /\ opens_value c.
Proof.
  assert (Hconst : forall c, In c [110; 116; 102; 34; 91; 123]%N -> opens_value c).
  { intros c Hc. simpl in Hc.
    repeat (destruct Hc as [<-|Hc]; [repeat split; try reflexivity; discriminate|]).
    contradiction. }
  destruct v as [| |b|[|z]|s|l|ps|n]; simpl; intros H; inversion H; subst; clear H.
  - eexists _, _. split; [reflexivity|]. apply Hconst. simpl. auto.
  - destruct b; eexists _, _; (split; [reflexivity|]); apply Hconst; simpl; auto.
  - eexists _, _. split; [reflexivity|]. apply Hconst. simpl. auto.
  - destruct (decimal_head z) as (c & t' & -> & Hc).
    eexists _, _. split; [reflexivity|]. now apply digit_opens_value.
  - eexists _, _. split; [reflexivity|]. apply Hconst. simpl. auto.
  - unfold bracket. destruct (map _ l); eexists _, _;
      (split; [reflexivity|]); apply Hconst; simpl; auto 10.
  - unfold bracket. destruct (omap _ ps); eexists _, _;
      (split; [reflexivity|]); apply Hconst; simpl; auto 10.
Qed.

Lemma parse_value_number f c r :
  c = 45%N \/ is_digit c = true ->
  parse_value (S f) (c :: r) = parse_number (c :: r).
Proof.
  intros Hc. destruct (digit_opens_value c Hc) as (Hws & _ & _).
  cbn [parse_value]. rewrite skip_ws_head by assumption.
  assert (Htest : (c =? 45)%N || is_digit c = true).
  { destruct Hc as [-> | ->]; [reflexivity|apply orb_true_r]. }
  rewrite Htest.
  assert (H : c <> 123%N /\ c <> 91%N /\ c <> 34%N).
  { unfold is_digit in Hc. destruct Hc as [->|H]; [repeat split; discriminate|].
    apply andb_true_iff in H as [H1 H2]. apply N.leb_le in H1, H2. lia. }
  destruct H as (H1 & H2 & H3).
  destruct (N.eqb_spec c 123); [contradiction|].
  destruct (N.eqb_spec c 91); [contradiction|].
  destruct (N.eqb_spec c 34); [contradiction|]. reflexivity.
Qed.

Lemma parse_value_array f c r :
  opens_value c ->
  parse_value (S f) (91%N :: c :: r) =
  '(l, r') ← parse_elements f (c :: r); Return (VArr l, r').
Proof.
  intros (Hws & Hc & _). cbn [parse_value].
  rewrite (skip_ws_head 91) by reflexivity.
  change ((91 =? 123)%N) with false. change ((91 =? 91)%N) with true.
  cbn iota. now rewrite starts_with_miss.
Qed.

Lemma parse_value_object f c r :
  opens_value c ->
  parse_value (S f) (123%N :: c :: r) =
  '(ms, r') ← parse_members f (c :: r); Return (build_object ms, r').
Proof.
  intros (Hws & _ & Hc). cbn [parse_value].
  rewrite (skip_ws_head 123) by reflexivity.
  change ((123 =? 123)%N) with true.
  cbn iota. now rewrite starts_with_miss.
Qed.

Lemma parse_elements_step f s :
  parse_elements (S f) s =
  '(v, r) ← parse_value f s;
  match starts_with 44 r with
  | Some r' => '(l, r'') ← parse_elements f r'; Return (v :: l, r'')
  | None =>
      match starts_with 93 r with
      | Some r' => Return ([v], r')
      | None => Throw SyntaxError
      end
  end.
Proof. reflexivity. Qed.

Lemma parse_members_step f s :
  parse_members (S f) s =
  match starts_with 34 s with
  | Some r =>
      '(k, r1) ← parse_chars r;
      match starts_with 58 r1 with
      | Some r2 =>
          '(v, r3) ← parse_value f r2;
          match starts_with 44 r3 with
          | Some r4 =>
              '(ms, r5) ← parse_members f r4; Return ((k, v) :: ms, r5)
          | None =>
              match starts_with 125 r3 with
              | Some r4 => Return ([(k, v)], r4)
              | None => Throw SyntaxError
              end
          end
      | None => Throw SyntaxError
      end
  | None => Throw SyntaxError
  end.
Proof. reflexivity. Qed.

Lemma reads_back_element x fuel rest :
  reads_back x -> (need x <= fuel)%nat -> ends_number rest = true ->
  parse_value fuel (element_text x ++ rest) = Return (x, rest).
Proof.
  intros Hx Hfuel Hrest. destruct (Hx fuel rest Hfuel Hrest) as (t & Ht & Hp).
  unfold element_text. now rewrite Ht.
Qed.

Lemma reads_back_elements l :
  Forall reads_back l ->
  forall x fuel rest,
    reads_back x ->
    (list_sum (map (fun x => S (need x)) (x :: l)) <= fuel)%nat ->
    parse_elements fuel
      (element_text x ++ join_tail 93 (map element_text l) ++ rest)
    = Return (x :: l, rest).
Proof.
  induction 1 as [|y l Hy Hl IH]; intros x fuel rest Hx Hfuel;
    (destruct fuel as [|f]; [simpl in Hfuel; lia|]);
    rewrite parse_elements_step; simpl in Hfuel.
  - cbn [map join_tail app].
    rewrite (reads_back_element x f) by (first [assumption | lia | reflexivity]).
    rewrite bind_return; cbn beta iota.
    rewrite starts_with_miss by (reflexivity || discriminate).
    now rewrite starts_with_hit.
  - cbn [map join_tail app].
    rewrite (reads_back_element x f) by (first [assumption | lia | reflexivity]).
    rewrite bind_return; cbn beta iota.
    rewrite starts_with_hit by reflexivity.
    rewrite <- app_assoc.
    rewrite IH by (first [assumption | simpl; lia]). reflexivity.
Qed.

Lemma reads_back_members ps :
  Forall (fun p => reads_back (snd p)) ps ->
  forall p fuel rest,
    reads_back (snd p) ->
    (list_sum (map (fun p => S (need (snd p))) (p :: ps)) <= fuel)%nat ->
    parse_members fuel
      (member_text p ++ join_tail 125 (map member_text ps) ++ rest)
    = Return (p :: ps, rest).
Proof.
  induction 1 as [|q ps Hq Hps IH]; intros [k x] fuel rest Hx Hfuel;
    (destruct fuel as [|f]; [simpl in Hfuel; lia|]);
    rewrite parse_members_step; simpl in Hfuel;
    unfold member_text at 1; cbn [fst snd]; unfold quote; cbn [app].
    all: rewrite starts_with_hit by reflexivity.
    all: rewrite <- !app_assoc; rewrite parse_chars_quote.
    all: rewrite bind_return; cbn beta iota; cbn [app].
    all: rewrite starts_with_hit by reflexivity.
    all: cbn [map join_tail app].
  - rewrite (reads_back_element x f) by (first [assumption | lia | reflexivity]).
    rewrite bind_return; cbn beta iota.
    rewrite starts_with_miss by (reflexivity || discriminate).
    now rewrite starts_with_hit.
  - rewrite (reads_back_element x f) by (first [assumption | lia | reflexivity]).
    rewrite bind_return; cbn beta iota.
    rewrite starts_with_hit by reflexivity.
    rewrite <- app_assoc.
    rewrite IH by (first [assumption | simpl; lia]). reflexivity.
Qed.

(** Defining the members of a duplicate-free list, in order, rebuilds the
    list. *)
Lemma own_define_fresh k v ps :
  k ∉ map fst ps -> own_define k v ps = ps ++ [(k, v)].
Proof.
  induction ps as [|[k' v'] ps IH]; intros Hk; [reflexivity|]. simpl in *.
  apply not_elem_of_cons in Hk as [Hne Hk].
  destruct (decide (k' = k)); [congruence|]. now rewrite IH.
Qed.

Lemma define_all_fresh ms acc :
  NoDup (map fst (acc ++ ms)) ->
  fold_left (fun ps m => own_define (fst m) (snd m) ps) ms acc = acc ++ ms.
Proof.
  revert acc. induction ms as [|[k v] ms IH]; intros acc Hnd; simpl.
  - now rewrite app_nil_r.
  - rewrite own_define_fresh.
    + rewrite IH; rewrite <- app_assoc; [reflexivity|exact Hnd].
    + rewrite map_app in Hnd. apply NoDup_app in Hnd as (_ & Hdisj & _).
      intros Hin. apply (Hdisj k Hin). simpl. left.
Qed.

Lemma build_object_members ps : NoDup (map fst ps) -> build_object ps = VObj ps.
Proof. intros H. unfold build_object. now rewrite define_all_fresh. Qed.

Lemma omap_member_text ps :
  Forall (fun p => exists t, serialize (snd p) = Some t) ps ->
  omap (fun p => match serialize (snd p) with
                 | Some t => Some (quote (fst p) ++ 58%N :: t)
                 | None => None
                 end) ps = map member_text ps.
Proof.
  induction 1 as [|p ps (t & Ht) _ IH]; [reflexivity|].
  cbn [omap list_omap map]. unfold member_text at 1, element_text.
  rewrite Ht. cbn. now f_equal.
Qed.

Lemma representable_elements (P : value -> Prop) l :
  Forall (fun x => json_representable x = true -> P x) l ->
  forallb json_representable l = true -> Forall P l.
Proof.
  induction 1 as [|x l Hx _ IH]; simpl; intros H; constructor;
    apply andb_true_iff in H as [H1 H2]; auto.
Qed.

Lemma representable_members (P : value -> Prop) (ps : list (jsstring * value)) :
  Forall (fun p => json_representable (snd p) = true -> P (snd p)) ps ->
  forallb (fun p => json_representable (snd p)) ps = true ->
  Forall (fun p => P (snd p)) ps.
Proof.
  induction 1 as [|x l Hx _ IH]; simpl; intros H; constructor;
    apply andb_true_iff in H as [H1 H2]; auto.
Qed.

Lemma reads_back_serializes v :
  reads_back v -> exists t, serialize v = Some t.
Proof.
  intros H. destruct (H (need v) [] (le_n _) eq_refl) as (t & Ht & _). eauto.
Qed.

Lemma serialize_array l :
  serialize (VArr l) = Some (bracket 91 93 (map element_text l)).
Proof. reflexivity. Qed.

Lemma serialize_object ps :
  Forall (fun p => exists t, serialize (snd p) = Some t) ps ->
  serialize (VObj ps) = Some (bracket 123 125 (map member_text ps)).
Proof. intros H. rewrite <- omap_member_text by assumption. reflexivity. Qed.

Theorem representable_reads_back v :
  json_representable v = true -> reads_back v.
Proof.
  induction v as [| |b|[|z]|s|l IH|ps IH|n] using value_ind;
    intros Hrep; try discriminate Hrep;
    intros fuel rest Hfuel Hrest;
    (destruct fuel as [|f]; [simpl in Hfuel; lia|]).
  - eexists. split; reflexivity.
  - destruct b; eexists; split; reflexivity.
  - eexists. split; [reflexivity|].
    destruct (decimal_head z) as (c & t & Hz & Hc).
    pose proof (parse_number_decimal z rest Hrep Hrest) as Hp.
    rewrite Hz in *. cbn [app] in *. now rewrite parse_value_number.
  - eexists. split; [reflexivity|]. unfold quote. cbn [app].
    rewrite <- app_assoc. cbn [parse_value].
    rewrite (skip_ws_head 34) by reflexivity.
    change ((34 =? 123)%N) with false. change ((34 =? 91)%N) with false.
    change ((34 =? 34)%N) with true. cbn iota.
    now rewrite parse_chars_quote.
  - simpl in Hrep. pose proof (representable_elements _ _ IH Hrep) as Hl.
    rewrite serialize_array. eexists. split; [reflexivity|].
    destruct l as [|x l]; [reflexivity|].
    inversion Hl as [|? ? Hx Hl']; subst.
    cbn [map bracket app].
    destruct (reads_back_serializes x Hx) as (t & Ht).
    destruct (serialize_head x t Ht) as (c & t' & -> & Hc).
    assert (Hx' : element_text x = c :: t') by (unfold element_text; now rewrite Ht).
    pose proof (reads_back_elements l Hl' x f rest Hx) as Hp.
    rewrite <- app_assoc. rewrite Hx' in *. cbn [app] in *.
    rewrite parse_value_array by assumption.
    rewrite Hp by (simpl in *; lia). reflexivity.
  - simpl in Hrep. apply andb_true_iff in Hrep as [Hnd Hrep].
    apply bool_decide_eq_true in Hnd.
    pose proof (representable_members _ _ IH Hrep) as Hps.
    rewrite serialize_object
      by (eapply Forall_impl; [exact Hps|]; intros p Hp;
          apply (reads_back_serializes _ Hp)).
    eexists. split; [reflexivity|].
    destruct ps as [|p ps]; [reflexivity|].
    inversion Hps as [|? ? Hx Hps']; subst.
    cbn [map bracket app].
    pose proof (reads_back_members ps Hps' p f rest Hx) as Hp.
    rewrite <- app_assoc.
    unfold member_text at 1. unfold member_text at 1 in Hp.
    unfold quote in Hp |- *. cbn [app] in *.
    rewrite parse_value_object by (repeat split; try reflexivity; discriminate).
    rewrite Hp by (simpl in *; lia).
    rewrite bind_return. cbn beta iota. now rewrite build_object_members.
Qed.

(** ** The text is long enough to pay for its reading *)

Lemma list_sum_le {A} (f g : A -> nat) l :
  Forall (fun x => (f x <= g x)%nat) l ->
  (list_sum (map f l) <= list_sum (map g l))%nat.
Proof. induction 1; simpl; lia. Qed.

Lemma length_join_tail close items :
  length (join_tail close items)
  = S (list_sum (map (fun x => S (length x)) items)).
Proof.
  induction items as [|x r IH]; [reflexivity|].
  simpl. rewrite length_app, IH. lia.
Qed.

Lemma length_bracket open close items :
  (S (list_sum (map (fun x => S (length x)) items))
   <= length (bracket open close items))%nat.
Proof.
  destruct items as [|x r]; simpl; [lia|].
  rewrite length_app, length_join_tail. lia.
Qed.

Lemma need_le_length v :
  json_representable v = true -> (need v <= length (element_text v))%nat.
Proof.
  induction v as [| |b|[|z]|s|l IH|ps IH|n] using value_ind;
    intros Hrep; try discriminate Hrep; unfold element_text; simpl.
  - lia.
  - destruct b; simpl; lia.
  - destruct (decimal_head z) as (c & t & -> & _). simpl. lia.
  - lia.
  - simpl in Hrep.
    pose proof (representable_elements
                  (fun v => (need v <= length (element_text v))%nat)
                  _ IH Hrep) as Hl.
    fold element_text.
    etransitivity; [|apply length_bracket]. rewrite map_map.
    apply le_n_S. apply list_sum_le.
    eapply Forall_impl; [exact Hl|]. simpl. intros x Hx. lia.
  - simpl in Hrep. apply andb_true_iff in Hrep as [_ Hrep].
    pose proof (representable_members
                  (fun v => (need v <= length (element_text v))%nat)
                  _ IH Hrep) as Hps.
    assert (Hser : Forall (fun p => exists t, serialize (snd p) = Some t) ps).
    { clear -Hrep. induction ps as [|p ps IHps]; constructor;
        simpl in Hrep; apply andb_true_iff in Hrep as [H1 H2]; auto.
      apply reads_back_serializes. now apply representable_reads_back. }
    rewrite omap_member_text by assumption.
    etransitivity; [|apply length_bracket]. rewrite map_map.
    apply le_n_S. apply list_sum_le.
    eapply Forall_impl; [exact Hps|]. simpl. intros [k x] Hx.
    unfold member_text, quote. simpl in *. rewrite !length_app. simpl. lia.
Qed.

Lemma representable_not_inherited v :
  json_representable v = true -> has_inherited v = false.
Proof.
  induction v as [| |b|[|z]|s|l IH|ps IH|n] using value_ind;
    intros Hrep; try discriminate Hrep; try reflexivity; simpl in *.
  - induction IH as [|x l Hx _ IHl]; [reflexivity|]. simpl in *.
    apply andb_true_iff in Hrep as [H1 H2]. now rewrite Hx, IHl.
  - apply andb_true_iff in Hrep as [_ Hrep].
    induction IH as [|x l Hx _ IHl]; [reflexivity|]. simpl in *.
    apply andb_true_iff in Hrep as [H1 H2]. now rewrite Hx, IHl.
Qed.

Lemma representable_numbers_safe v :
  json_representable v = true -> numbers_safe v = true.
Proof.
  induction v as [| |b|[|z]|s|l IH|ps IH|n] using value_ind;
    intros Hrep; try discriminate Hrep; try reflexivity; simpl in *.
  - assumption.
  - induction IH as [|x l Hx _ IHl]; [reflexivity|]. simpl in *.
    apply andb_true_iff in Hrep as [H1 H2]. now rewrite Hx, IHl.
  - apply andb_true_iff in Hrep as [_ Hrep].
    induction IH as [|x l Hx _ IHl]; [reflexivity|]. simpl in *.
    apply andb_true_iff in Hrep as [H1 H2]. now rewrite Hx, IHl.
Qed.

(** [JSON.parse(JSON.stringify(v))] is [v] for a representable [v], and the
    text in between is a non-empty string. *)
Theorem JSON_round_trip v :
  json_representable v = true ->
  exists t, JSON_stringify v = Return (VStr t)
            /\ truthy (VStr t) = true
            /\ JSON_parse (VStr t) = Return v.
Proof.
  intros Hrep. pose proof (representable_reads_back v Hrep) as Hback.
  destruct (reads_back_serializes v Hback) as (t & Ht).
  pose proof (need_le_length v Hrep) as Hneed.
  unfold element_text in Hneed. rewrite Ht in Hneed. simpl in Hneed.
  exists t. unfold JSON_stringify.
  rewrite (representable_not_inherited v Hrep),
    (representable_numbers_safe v Hrep), Ht.
  split; [reflexivity|].
  split.
  - destruct (serialize_head v t Ht) as (c & t' & -> & _). reflexivity.
  - unfold JSON_parse, parse_text.
    destruct (Hback (S (2 * length t)) []) as (t0 & Ht0 & Hp);
      [lia|reflexivity|].
    rewrite Ht in Ht0. injection Ht0 as <-.
    rewrite app_nil_r in Hp. now rewrite Hp.
Qed.

(** ** What [JSON.parse] yields is representable *)

Lemma own_define_keys k v ps x :
  x ∈ map fst (own_define k v ps) <-> x = k \/ x ∈ map fst ps.
Proof.
  induction ps as [|[k' v'] ps IH]; simpl.
  - rewrite list_elem_of_singleton, elem_of_nil. tauto.
  - destruct (decide (k' = k)) as [->|Hne]; simpl;
      rewrite !elem_of_cons, ?IH; tauto.
Qed.

Lemma own_define_NoDup k v ps :
  NoDup (map fst ps) -> NoDup (map fst (own_define k v ps)).
Proof.
  induction ps as [|[k' v'] ps IH]; simpl; intros Hnd.
  - apply NoDup_singleton.
  - apply NoDup_cons in Hnd as [Hk' Hnd].
    destruct (decide (k' = k)) as [->|Hne]; simpl.
    + now apply NoDup_cons.
    + apply NoDup_cons. split; [|auto].
      rewrite own_define_keys. intros [->|H]; [congruence|contradiction].
Qed.

Lemma own_define_representable k v ps :
  json_representable v = true ->
  forallb (fun p => json_representable (snd p)) ps = true ->
  forallb (fun p => json_representable (snd p)) (own_define k v ps) = true.
Proof.
  intros Hv. induction ps as [|[k' v'] ps IH]; simpl; intros H.
  - now rewrite Hv.
  - apply andb_true_iff in H as [H1 H2].
    destruct (decide (k' = k)); simpl; [now rewrite Hv|].
    now rewrite H1, IH.
Qed.

Lemma own_lookup_define k v ps : own_lookup k (own_define k v ps) = Some v.
Proof.
  induction ps as [|[k' v'] ps IH]; simpl.
  - now rewrite decide_True.
  - destruct (decide (k' = k)) as [->|Hne]; simpl.
    + now rewrite decide_True.
    + now rewrite decide_False.
Qed.

Lemma object_representable ps :
  NoDup (map fst ps) ->
  forallb (fun p => json_representable (snd p)) ps = true ->
  json_representable (VObj ps) = true.
Proof.
  intros Hnd H. simpl. rewrite H. now rewrite bool_decide_eq_true_2.
Qed.

Lemma representable_object ps :
  json_representable (VObj ps) = true ->
  NoDup (map fst ps)
  /\ forallb (fun p => json_representable (snd p)) ps = true.
Proof.
  simpl. intros H. apply andb_true_iff in H as [Hnd H].
  now apply bool_decide_eq_true in Hnd.
Qed.

Lemma own_define_object k v ps :
  json_representable v = true -> json_representable (VObj ps) = true ->
  json_representable (VObj (own_define k v ps)) = true.
Proof.
  intros Hv Hps. apply representable_object in Hps as [Hnd Hps].
  apply object_representable;
    auto using own_define_NoDup, own_define_representable.
Qed.

Lemma build_object_representable ms :
  forallb (fun p => json_representable (snd p)) ms = true ->
  json_representable (build_object ms) = true.
Proof.
  unfold build_object. intros Hms.
  assert (H : forall acc,
             json_representable (VObj acc) = true ->
             json_representable
               (VObj (fold_left (fun ps m => own_define (fst m) (snd m) ps)
                        ms acc)) = true).
  { induction ms as [|[k v] ms IH]; intros acc Hacc; [assumption|].
    simpl in Hms. apply andb_true_iff in Hms as [Hv Hms]. simpl.
    apply IH; [assumption|]. now apply own_define_object. }
  now apply H.
Qed.

Lemma safe_number_representable (negative : bool) n (rest r : jsstring) v :
  (if negative && (n =? 0) then Unmodelled
   else if negb (is_safe_integer n) then Unmodelled
   else Return (VNum (Int (if negative then - n else n)), rest))
  = Return (v, r) ->
  json_representable v = true.
Proof.
  destruct (negative && (n =? 0)); [discriminate|].
  destruct (is_safe_integer n) eqn:Hsafe; [|discriminate].
  intros H. injection H as <- _. cbn [json_representable].
  destruct negative; [|assumption].
  now rewrite <- is_safe_integer_abs, Z.abs_opp, is_safe_integer_abs.
Qed.

Lemma parse_number_representable s v r :
  parse_number s = Return (v, r) -> json_representable v = true.
Proof.
  unfold parse_number.
  destruct (match s with
            | [] => (false, s)
            | c :: r0 => if (c =? 45)%N then (true, r0) else (false, s)
            end) as [negative s1].
  destruct (read_digits s1) as [d rest].
  destruct d as [|d| | | | | | | | |]; try discriminate;
    try (destruct d; try discriminate);
    (destruct (continues_number rest); [discriminate|]);
    apply safe_number_representable.
Qed.

Lemma parse_representable fuel :
  (forall s v r, parse_value fuel s = Return (v, r) ->
                 json_representable v = true)
  /\ (forall s l r, parse_elements fuel s = Return (l, r) ->
                    forallb json_representable l = true)
  /\ (forall s ms r, parse_members fuel s = Return (ms, r) ->
                     forallb (fun p => json_representable (snd p)) ms = true).
Proof.
  induction fuel as [|f (IHv & IHe & IHm)];
    [repeat split; intros; discriminate|].
  repeat split.
  - intros s v r H. cbn [parse_value] in H.
    destruct (skip_ws s) as [|c t]; [discriminate|].
    destruct (c =? 123)%N.
    { destruct (starts_with 125 t); [now injection H as <- _|].
      bind_inversion H. injection H as <- _.
      eapply build_object_representable, IHm; eassumption. }
    destruct (c =? 91)%N.
    { destruct (starts_with 93 t); [now injection H as <- _|].
      bind_inversion H. injection H as <- _. simpl. eapply IHe; eassumption. }
    destruct (c =? 34)%N.
    { bind_inversion H. now injection H as <- _. }
    destruct ((c =? 45)%N || is_digit c).
    { eapply parse_number_representable; eassumption. }
    destruct (strip_prefix lit_null (c :: t)); [now injection H as <- _|].
    destruct (strip_prefix lit_true (c :: t)); [now injection H as <- _|].
    destruct (strip_prefix lit_false (c :: t)); [now injection H as <- _|].
    discriminate.
  - intros s l r H. rewrite parse_elements_step in H.
    bind_inversion H.
    destruct (starts_with 44 _).
    + bind_inversion H. injection H as <- _. simpl.
      erewrite IHv, IHe by eassumption. reflexivity.
    + destruct (starts_with 93 _); [|discriminate].
      injection H as <- _. simpl. erewrite IHv by eassumption. reflexivity.
  - intros s ms r H. rewrite parse_members_step in H.
    destruct (starts_with 34 s); [|discriminate].
    bind_inversion H.
    destruct (starts_with 58 _); [|discriminate].
    bind_inversion H.
    destruct (starts_with 44 _).
    + bind_inversion H. injection H as <- _. simpl.
      erewrite IHv, IHm by eassumption. reflexivity.
    + destruct (starts_with 125 _); [|discriminate].
      injection H as <- _. simpl. erewrite IHv by eassumption. reflexivity.
Qed.

Theorem JSON_parse_representable t v :
  JSON_parse t = Return v -> json_representable v = true.
Proof.
  destruct t; try discriminate. unfold JSON_parse, parse_text. intros H.
  bind_inversion H.
  destruct (skip_ws _); [|discriminate]. injection H as <-.
  eapply parse_representable; eassumption.
Qed.

(** ** Running the operations *)

Lemma bind_run {A B} (m : M A) (f : A -> M B) st a st' :
  m st = (Return a, st') -> bind m f st = f a st'.
Proof. intros H. unfold bind. now rewrite H. Qed.

Lemma bind_throw {A B} (m : M A) (f : A -> M B) st e st' :
  m st = (Throw e, st') -> bind m f st = (Throw e, st').
Proof. intros H. unfold bind. now rewrite H. Qed.

Lemma checkKeyValidity_string s :
  checkKeyValidity (VStr s) =
  if decide (replace_spaces s = []) then Throw (Error "The key cannot be empty")
  else if maxLengthKey <? Z.of_nat (length (replace_spaces s)) then
    Throw (Error "The key must be at least one character")
  else Return tt.
Proof.
  unfold checkKeyValidity, key_replace. rewrite bind_return. simpl.
  destruct (replace_spaces s); reflexivity.
Qed.

(** What validation does with a key that is not a string. *)
Lemma checkKeyValidity_not_string key :
  is_string key = false -> calls_own_replace key = false ->
  checkKeyValidity key
  = Throw (match key with
           | VUndefined | VNull => Error "The key cannot be empty"
           | _ => TypeError
           end).
Proof.
  intros Hkey Hcalls. destruct key as [| |b|n|s|l|ps|name];
    try discriminate; try reflexivity.
  unfold checkKeyValidity, key_replace. unfold calls_own_replace in Hcalls.
  destruct (own_lookup (js "replace") ps) as [[]|];
    try discriminate; reflexivity.
Qed.

Lemma checkKeyValidity_total key :
  calls_own_replace key = false ->
  checkKeyValidity key = Return tt \/ exists e, checkKeyValidity key = Throw e.
Proof.
  intros Hcalls. destruct (is_string key) eqn:Hkey.
  - destruct key; try discriminate. rewrite checkKeyValidity_string.
    destruct (decide _); [right; eauto|]. destruct (_ <? _); eauto.
  - right. eexists. now apply checkKeyValidity_not_string.
Qed.

Lemma valid_key_string key : valid_key key -> exists k, key = VStr k.
Proof.
  unfold valid_key. destruct key as [| |b|n|s|l|ps|name];
    try discriminate; eauto.
  unfold checkKeyValidity, key_replace.
  destruct (own_lookup (js "replace") ps) as [[]|]; discriminate.
Qed.

Lemma valid_key_length s :
  valid_key (VStr s) <-> (1 <= length (replace_spaces s) <= 250)%nat.
Proof.
  unfold valid_key. rewrite checkKeyValidity_string. unfold maxLengthKey.
  destruct (decide _) as [E|E].
  - rewrite E. simpl. split; [discriminate|lia].
  - destruct (Z.ltb_spec 250 (Z.of_nat (length (replace_spaces s)))).
    + split; [discriminate|lia].
    + split; [|reflexivity]. intros _.
      destruct (replace_spaces s); [contradiction|simpl in *; lia].
Qed.

Lemma run_check {A} key (m : M A) st :
  valid_key key -> (lift (checkKeyValidity key);;; m) st = m st.
Proof. intros H. unfold bind, lift. now rewrite H. Qed.

Lemma run_check_throw {A} key (m : M A) st e :
  checkKeyValidity key = Throw e ->
  (lift (checkKeyValidity key);;; m) st = (Throw e, st).
Proof. intros H. unfold bind, lift. now rewrite H. Qed.

Lemma run_get k st :
  valid_key (VStr k) ->
  get (VStr k) st =
  (Return (default VNull (entries st !! k)),
   Backend (entries st) (CallGet k :: calls st)).
Proof. intros H. unfold get. now rewrite run_check. Qed.

Lemma run_set k data ttl n st :
  valid_key (VStr k) -> ToNumber ttl = Return n ->
  set (VStr k) data ttl st =
  if negb (num_truthy n) || is_undefined data then
    (Throw (Error "Invalid arguments for set operation"), st)
  else
    (Return data,
     Backend (<[k := data]> (entries st)) (CallSet k data ttl :: calls st)).
Proof.
  intros H Hn. unfold set. rewrite run_check by assumption.
  unfold bind, lift. rewrite Hn.
  now destruct (negb (num_truthy n) || is_undefined data).
Qed.

Lemma run_del k st :
  valid_key (VStr k) ->
  del (VStr k) st =
  (Return (VStr (js "OK")),
   Backend (delete k (entries st)) (CallDel k :: calls st)).
Proof. intros H. unfold del. now rewrite run_check. Qed.

(** ** Key validation *)

Lemma replace_spaces_all s :
  forallb is_regexp_space s = true -> replace_spaces s = [].
Proof.
  unfold replace_spaces. induction s as [|c s IH]; [reflexivity|]. simpl.
  intros H. apply andb_true_iff in H as [Hc Hs]. rewrite Hc. simpl. auto.
Qed.

Lemma replace_spaces_none s :
  forallb (fun c => negb (is_regexp_space c)) s = true -> replace_spaces s = s.
Proof.
  unfold replace_spaces. induction s as [|c s IH]; [reflexivity|]. simpl.
  intros H. apply andb_true_iff in H as [Hc Hs]. rewrite Hc. now rewrite IH.
Qed.

Lemma invalid_key_rejected key :
  calls_own_replace key = false ->
  ~ valid_key key -> all_reject_before_backend key.
Proof.
  intros Hcalls Hinvalid.
  destruct (checkKeyValidity_total key Hcalls) as [H|(e & He)];
    [contradiction|].
  intros field data ttl options.
  repeat split; intros st; exists e;
    unfold get, set, del, hashSet, hashGet, hashDel, listSet, listGet, listDel, get;
    try (now apply run_check_throw).
  rewrite (bind_throw _ _ st e st); [reflexivity|].
  now apply run_check_throw.
Qed.

(** C4, amended: validation looks at the key with its white space taken
    out. It rejects a key that is empty then, so the empty string and any
    string of white space, and a key longer than 250 characters then, so
    any 251-character key without white space; it accepts a key of 1 to 250
    characters then, so any 250-character key without white space. Every
    operation given a rejected key fails before it reaches the backend. *)
Theorem checkKeyValidity_on_stripped_key (s : jsstring) :
  (replace_spaces s = [] ->
   checkKeyValidity (VStr s) = Throw (Error "The key cannot be empty"))
  /\ (forallb is_regexp_space s = true -> ~ valid_key (VStr s))
  /\ ((250 < length (replace_spaces s))%nat ->
      checkKeyValidity (VStr s)
      = Throw (Error "The key must be at least one character"))
  /\ (length s = 251%nat ->
      forallb (fun c => negb (is_regexp_space c)) s = true ->
      ~ valid_key (VStr s))
  /\ ((1 <= length (replace_spaces s) <= 250)%nat -> valid_key (VStr s))
  /\ (length s = 250%nat ->
      forallb (fun c => negb (is_regexp_space c)) s = true ->
      valid_key (VStr s))
  /\ (~ valid_key (VStr s) -> all_reject_before_backend (VStr s)).
Proof.
  split_and!.
  - intros H. rewrite checkKeyValidity_string. now rewrite decide_True.
  - intros H Hv. apply valid_key_length in Hv.
    rewrite replace_spaces_all in Hv by assumption. simpl in Hv. lia.
  - intros H. rewrite checkKeyValidity_string.
    rewrite decide_False by (intros E; rewrite E in H; simpl in H; lia).
    unfold maxLengthKey.
    destruct (Z.ltb_spec 250 (Z.of_nat (length (replace_spaces s))));
      [reflexivity|lia].
  - intros Hlen Hs Hv. apply valid_key_length in Hv.
    rewrite replace_spaces_none in Hv by assumption. lia.
  - apply valid_key_length.
  - intros Hlen Hs. apply valid_key_length.
    rewrite replace_spaces_none by assumption. lia.
  - now apply invalid_key_rejected.
Qed.

(** C4, as stated, fails: 250 letters followed by a space make a
    251-character key, and validation accepts it. *)
Lemma key_of_251_accepted :
  length key_of_251_with_space = 251%nat
  /\ checkKeyValidity (VStr key_of_251_with_space) = Return tt.
Proof. split; vm_compute; reflexivity. Qed.

Lemma checkKeyValidity_on_stripped_key_witness :
  checkKeyValidity (VStr []) = Throw (Error "The key cannot be empty")
  /\ ~ valid_key (VStr (js "   "))
  /\ ~ valid_key (VStr (replicate 251 97%N))
  /\ valid_key (VStr (replicate 250 97%N))
  /\ all_reject_before_backend (VStr (js "   ")).
Proof.
  destruct (checkKeyValidity_on_stripped_key []) as (Hempty & _).
  destruct (checkKeyValidity_on_stripped_key (js "   "))
    as (_ & Hspaces & _ & _ & _ & _ & Hbefore).
  destruct (checkKeyValidity_on_stripped_key (replicate 251 97%N))
    as (_ & _ & _ & Hlong & _).
  destruct (checkKeyValidity_on_stripped_key (replicate 250 97%N))
    as (_ & _ & _ & _ & _ & Hfits & _).
  split_and!.
  - apply Hempty. reflexivity.
  - apply Hspaces. reflexivity.
  - apply Hlong; vm_compute; reflexivity.
  - apply Hfits; vm_compute; reflexivity.
  - apply Hbefore, Hspaces. reflexivity.
Defined.

(** ** The scalar operations *)

(** C2, amended: [set] fails before any backend write exactly when
    [Number(ttl)] is [NaN] or zero or the value is [undefined]; with any
    other [ttl], a negative one included, and a defined value it writes the
    entry. *)
Theorem set_checks_arguments k data ttl n st :
  valid_key (VStr k) -> ToNumber ttl = Return n ->
  ((n = NaN \/ n = Int 0 \/ data = VUndefined) ->
   set (VStr k) data ttl st
   = (Throw (Error "Invalid arguments for set operation"), st))
  /\ (forall z, n = Int z -> z <> 0 -> data <> VUndefined ->
      set (VStr k) data ttl st
      = (Return data,
         Backend (<[k := data]> (entries st))
           (CallSet k data ttl :: calls st))).
Proof.
  intros Hk Hn. rewrite (run_set k data ttl n st Hk Hn). split.
  - intros [-> | [-> | ->]]; try reflexivity.
    now rewrite orb_true_r.
  - intros z -> Hz Hdata. unfold num_truthy. simpl.
    destruct (Z.eqb_spec z 0); [contradiction|].
    destruct data; try reflexivity. contradiction.
Qed.

Lemma set_checks_arguments_witness :
  set (VStr (js "k")) (VStr (js "v")) (VNum (Int 0)) (Backend ∅ [])
  = (Throw (Error "Invalid arguments for set operation"), Backend ∅ []).
Proof.
  apply (set_checks_arguments (js "k") (VStr (js "v")) (VNum (Int 0)) (Int 0)).
  - reflexivity.
  - reflexivity.
  - right. left. reflexivity.
Defined.

(** C2, as stated, fails: with the negative [ttl] -1 the call succeeds and
    the write reaches the backend. *)
Lemma set_negative_ttl_writes :
  let st := state_after
              (set (VStr (js "k")) (VStr (js "v")) (VNum (Int (-1))))
              (Backend ∅ []) in
  result_of (set (VStr (js "k")) (VStr (js "v")) (VNum (Int (-1))))
    (Backend ∅ []) = Return (VStr (js "v"))
  /\ calls st = [CallSet (js "k") (VStr (js "v")) (VNum (Int (-1)))]
  /\ entries st !! js "k" = Some (VStr (js "v")).
Proof. vm_compute. auto. Qed.

(** C8: for every valid key, [del] yields "OK" whatever the backend held,
    and so does [hashDel] without a field, which is [del]. *)
Theorem del_yields_OK k options st :
  valid_key (VStr k) ->
  del (VStr k) st
  = (Return (VStr (js "OK")),
     Backend (delete k (entries st)) (CallDel k :: calls st))
  /\ hashDel (VStr k) VUndefined options st = del (VStr k) st.
Proof.
  intros Hk. split; [now apply run_del|].
  unfold hashDel. now rewrite run_check.
Qed.

Lemma del_yields_OK_witness :
  result_of (del (VStr (js "k"))) (Backend ∅ []) = Return (VStr (js "OK"))
  /\ result_of (hashDel (VStr (js "k")) VUndefined VUndefined)
       (Backend {[ js "k" := VStr (js "{}") ]} [])
     = Return (VStr (js "OK")).
Proof.
  split.
  - unfold result_of.
    rewrite (proj1 (del_yields_OK (js "k") VUndefined (Backend ∅ []) eq_refl)).
    reflexivity.
  - unfold result_of.
    rewrite (proj2 (del_yields_OK (js "k") VUndefined
                      (Backend {[ js "k" := VStr (js "{}") ]} []) eq_refl)).
    rewrite (proj1 (del_yields_OK (js "k") VUndefined
                      (Backend {[ js "k" := VStr (js "{}") ]} []) eq_refl)).
    reflexivity.
Defined.

(** ** The hash simulation *)

Lemma parse_text_nonempty t v : JSON_parse (VStr t) = Return v -> t <> [].
Proof. intros H ->. discriminate H. Qed.

Lemma truthy_text t v : JSON_parse (VStr t) = Return v -> truthy (VStr t) = true.
Proof. intros H. destruct t; [discriminate H|reflexivity]. Qed.

(** C1: on a key the backend does not hold, [hashGet] without a field
    yields [undefined]; with a field it throws a [TypeError], reading the
    field of [undefined]. *)
Theorem hashGet_absent_key k st :
  valid_key (VStr k) -> entries st !! k = None ->
  hashGet (VStr k) VUndefined st
  = (Return VUndefined, Backend (entries st) (CallGet k :: calls st))
  /\ (forall f, f <> [] ->
      hashGet (VStr k) (VStr f) st
      = (Throw TypeError, Backend (entries st) (CallGet k :: calls st))).
Proof.
  intros Hk Habsent. split; [|intros [|c f] Hf; [contradiction|]];
    unfold hashGet; rewrite run_check by assumption;
    rewrite (bind_run _ _ _ _ _ (run_get k st Hk)); rewrite Habsent;
    reflexivity.
Qed.

Lemma hashGet_absent_key_witness :
  hashGet (VStr (js "k")) (VStr (js "f")) (Backend ∅ [])
  = (Throw TypeError, Backend ∅ [CallGet (js "k")]).
Proof.
  apply (hashGet_absent_key (js "k") (Backend ∅ [])).
  - reflexivity.
  - reflexivity.
  - discriminate.
Defined.

(** C10: the empty string as field is no field. [hashGet] then yields what
    the entry decodes to, whole, and [hashDel] deletes the entry and yields
    "OK". *)
Theorem empty_field_is_no_field k options st :
  valid_key (VStr k) ->
  hashGet (VStr k) (VStr []) st = hashGet (VStr k) VUndefined st
  /\ (forall t hash,
        entries st !! k = Some (VStr t) -> JSON_parse (VStr t) = Return hash ->
        result_of (hashGet (VStr k) (VStr [])) st = Return hash)
  /\ hashDel (VStr k) (VStr []) options st
     = (Return (VStr (js "OK")),
        Backend (delete k (entries st)) (CallDel k :: calls st)).
Proof.
  intros Hk. split_and!.
  - reflexivity.
  - intros t hash Hentry Hparse. unfold result_of, hashGet.
    rewrite run_check by assumption.
    rewrite (bind_run _ _ _ _ _ (run_get k st Hk)). rewrite Hentry.
    change (default VNull (Some (VStr t))) with (VStr t).
    rewrite (truthy_text t hash Hparse). unfold bind, lift.
    now rewrite Hparse.
  - unfold hashDel. rewrite run_check by assumption. simpl.
    now apply run_del.
Qed.

Lemma empty_field_is_no_field_witness :
  result_of (hashGet (VStr (js "k")) (VStr []))
    (Backend {[ js "k" := VStr (js "{}") ]} []) = Return (VObj [])
  /\ result_of (hashDel (VStr (js "k")) (VStr []) VUndefined)
       (Backend {[ js "k" := VStr (js "{}") ]} [])
     = Return (VStr (js "OK")).
Proof.
  destruct (empty_field_is_no_field (js "k") VUndefined
              (Backend {[ js "k" := VStr (js "{}") ]} []) eq_refl)
    as (_ & Hget & Hdel).
  split.
  - apply (Hget (js "{}")); reflexivity.
  - unfold result_of. rewrite Hdel. reflexivity.
Defined.

(** Reading the entry of a key and decoding it. *)
Lemma run_read {A} k t v d (f : value -> M A) st :
  valid_key (VStr k) ->
  entries st !! k = Some (VStr t) -> JSON_parse (VStr t) = Return v ->
  (let* text := get (VStr k) in
   let* decoded :=
     (if truthy text then lift (JSON_parse text) else ret d) in
   f decoded) st
  = f v (Backend (entries st) (CallGet k :: calls st)).
Proof.
  intros Hk Hentry Hparse.
  rewrite (bind_run _ _ _ _ _ (run_get k st Hk)). rewrite Hentry.
  change (default VNull (Some (VStr t))) with (VStr t).
  rewrite (truthy_text t v Hparse). unfold bind at 1, lift.
  now rewrite Hparse.
Qed.

Lemma run_read_absent {A} k d (f : value -> M A) st :
  valid_key (VStr k) -> entries st !! k = None ->
  (let* text := get (VStr k) in
   let* decoded :=
     (if truthy text then lift (JSON_parse text) else ret d) in
   f decoded) st
  = f d (Backend (entries st) (CallGet k :: calls st)).
Proof.
  intros Hk Hentry.
  rewrite (bind_run _ _ _ _ _ (run_get k st Hk)). now rewrite Hentry.
Qed.

(** Writing a defined value with a positive [ttl]. *)
Lemma run_set_positive k data z st :
  valid_key (VStr k) -> 0 < z -> is_undefined data = false ->
  set (VStr k) data (VNum (Int z)) st
  = (Return data,
     Backend (<[k := data]> (entries st))
       (CallSet k data (VNum (Int z)) :: calls st)).
Proof.
  intros Hk Hz Hdata.
  rewrite (run_set k data (VNum (Int z)) (Int z) st Hk eq_refl).
  unfold num_truthy. simpl. rewrite Hdata.
  destruct (Z.eqb_spec z 0); [lia|reflexivity].
Qed.

Lemma bind_lift {A B} (o : outcome A) (f : A -> M B) st a :
  o = Return a -> bind (lift o) f st = f a st.
Proof. intros ->. reflexivity. Qed.

(** Reading a member that an options object does not have. *)
Lemma get_prop_missing ps name :
  own_lookup name ps = None -> inherited name = false ->
  get_prop (VObj ps) name = Return VUndefined.
Proof. intros H1 H2. unfold get_prop. now rewrite H1, H2. Qed.

Lemma get_prop_own ps name v :
  own_lookup name ps = Some v -> get_prop (VObj ps) name = Return v.
Proof. intros H. unfold get_prop. now rewrite H. Qed.


(** ** The list simulation *)







(** ** The hash simulation, written and read back *)

Lemma set_prop_own_field ps f v :
  f <> proto_key ->
  set_prop (VObj ps) f v = Return (VObj (own_define f v ps)).
Proof.
  intros Hf. unfold set_prop. destruct (own_lookup f ps); [reflexivity|].
  now rewrite decide_False.
Qed.

(** C5, amended: for a field name that is neither empty nor [__proto__],
    a representable value and a positive [ttl], on a key that holds a hash
    or nothing, [hashGet] of the field after [hashSet] yields the value. *)
Theorem hashSet_then_hashGet k f v z ps st :
  valid_key (VStr k) -> f <> [] -> f <> proto_key ->
  json_representable v = true -> 0 < z ->
  holds_hash_or_nothing k st ps ->
  result_of (hashSet (VStr k) (VStr f) v (VNum (Int z))) st = Return VUndefined
  /\ result_of (hashGet (VStr k) (VStr f))
       (state_after (hashSet (VStr k) (VStr f) v (VNum (Int z))) st)
     = Return v.
Proof.
  intros Hk Hf Hproto Hv Hz Hholds.
  assert (Hps : json_representable (VObj ps) = true).
  { destruct Hholds as [[_ ->]|(t & _ & Hparse)]; [reflexivity|].
    apply (JSON_parse_representable _ _ Hparse). }
  pose proof (own_define_object f v ps Hv Hps) as Hnew.
  destruct (JSON_round_trip _ Hnew) as (t' & Hs & _ & Hp).
  assert (Hrun : exists calls',
             hashSet (VStr k) (VStr f) v (VNum (Int z)) st
             = (Return VUndefined,
                Backend (<[k := VStr t']> (entries st)) calls')).
  { unfold hashSet. rewrite run_check by assumption.
    destruct Hholds as [[Habsent ->]|(t & Hentry & Hparse)].
    - rewrite (bind_run _ _ _ _ _ (run_get k st Hk)). rewrite Habsent.
      change (truthy (default VNull None)) with false. cbn iota.
      unfold bind at 1, ret. cbn [is_string].
      rewrite (bind_lift _ _ _ (VObj (own_define f v [])))
        by (cbn [to_property_key]; rewrite bind_return;
            now apply set_prop_own_field).
      rewrite (bind_lift _ _ _ (VStr t')) by assumption.
      rewrite (bind_run _ _ _ _ _
                 (run_set_positive k (VStr t') z _ Hk Hz eq_refl)).
      eexists. reflexivity.
    - rewrite (bind_run _ _ _ _ _ (run_get k st Hk)). rewrite Hentry.
      change (default VNull (Some (VStr t))) with (VStr t).
      rewrite (truthy_text t _ Hparse).
      unfold bind at 1.
      rewrite (bind_run _ _ _ _ _ (run_get k _ Hk)). cbn [entries].
      rewrite Hentry.
      change (default VNull (Some (VStr t))) with (VStr t).
      unfold lift at 1. rewrite Hparse. cbn [is_string].
      rewrite (bind_lift _ _ _ (VObj (own_define f v ps)))
        by (cbn [to_property_key]; rewrite bind_return;
            now apply set_prop_own_field).
      rewrite (bind_lift _ _ _ (VStr t')) by assumption.
      rewrite (bind_run _ _ _ _ _
                 (run_set_positive k (VStr t') z _ Hk Hz eq_refl)).
      eexists. reflexivity. }
  destruct Hrun as (calls' & Hrun).
  unfold result_of, state_after. rewrite Hrun. cbn [fst snd].
  split; [reflexivity|].
  unfold hashGet. rewrite run_check by assumption.
  rewrite (run_read k t' (VObj (own_define f v ps)))
    by (try assumption; apply lookup_insert_eq).
  destruct f as [|c f]; [contradiction|]. cbn [truthy to_property_key lift].
  rewrite bind_return. unfold get_prop. now rewrite own_lookup_define.
Qed.

Lemma hashSet_then_hashGet_witness :
  result_of (hashGet (VStr (js "k")) (VStr (js "f")))
    (state_after
       (hashSet (VStr (js "k")) (VStr (js "f")) (VNum (Int 7)) (VNum (Int 10)))
       (Backend ∅ []))
  = Return (VNum (Int 7)).
Proof.
  apply (hashSet_then_hashGet (js "k") (js "f") (VNum (Int 7)) 10 []
           (Backend ∅ [])).
  - reflexivity.
  - discriminate.
  - discriminate.
  - reflexivity.
  - lia.
  - left. split; reflexivity.
Defined.

(** C5, as stated, fails for the empty field name: after
    [hashSet(k, "", 7, 10)], [hashGet(k, "")] yields the whole mapping and
    not 7. *)
Lemma hashSet_empty_field_not_read_back :
  let st := state_after
              (hashSet (VStr (js "k")) (VStr []) (VNum (Int 7)) (VNum (Int 10)))
              (Backend ∅ []) in
  result_of (hashGet (VStr (js "k")) (VStr [])) st
  = Return (VObj [([], VNum (Int 7))])
  /\ result_of (hashGet (VStr (js "k")) (VStr [])) st <> Return (VNum (Int 7)).
Proof. split; [vm_compute; reflexivity|vm_compute; discriminate]. Qed.

(** With the field [__proto__] the assignment in [hashSet] adds no
    property, and [hashGet] yields [Object.prototype]. *)
Lemma hashSet_proto_field_not_read_back :
  result_of (hashGet (VStr (js "k")) (VStr proto_key))
    (state_after
       (hashSet (VStr (js "k")) (VStr proto_key) (VNum (Int 7)) (VNum (Int 10)))
       (Backend ∅ []))
  = Return (VInherited proto_key).
Proof. vm_compute. reflexivity. Qed.

(** ** Deleting a field *)

(** C9, where the code departs from it: on a hash without the field
    [constructor], [hashDel] of that field finds the function inherited
    from [Object.prototype], writes the hash back and yields "OK". *)
Theorem hashDel_inherited_name_writes :
  let st := state_after
              (hashSet (VStr (js "k")) (VStr (js "f")) (VNum (Int 7))
                 (VNum (Int 10)))
              (Backend ∅ []) in
  let st' := state_after
               (hashDel (VStr (js "k")) (VStr (js "constructor"))
                  (option1 "ttl" 10)) st in
  result_of (hashGet (VStr (js "k")) VUndefined) st
  = Return (VObj [(js "f", VNum (Int 7))])
  /\ result_of (hashDel (VStr (js "k")) (VStr (js "constructor"))
                  (option1 "ttl" 10)) st
     = Return (VStr (js "OK"))
  /\ exists t, calls st' = CallSet (js "k") (VStr t) (VNum (Int 10))
                           :: CallGet (js "k") :: calls st.
Proof. vm_compute. split_and!; [reflexivity|reflexivity|]. eexists. reflexivity. Qed.

(** For a field name that [Object.prototype] does not have, C9 holds: with
    no entry, or with a hash that lacks the field, [hashDel] yields
    "Data not found" after one read, and writes nothing. *)
Lemma hashDel_missing_field k f options st :
  valid_key (VStr k) -> f <> [] -> inherited f = false ->
  (entries st !! k = None
   \/ exists t ps, entries st !! k = Some (VStr t)
                   /\ JSON_parse (VStr t) = Return (VObj ps)
                   /\ own_lookup f ps = None) ->
  hashDel (VStr k) (VStr f) options st
  = (Return (VStr (js "Data not found")),
     Backend (entries st) (CallGet k :: calls st)).
Proof.
  intros Hk Hf Hinherited Hentry. unfold hashDel.
  rewrite run_check by assumption.
  destruct f as [|c f]; [contradiction|]. cbn [truthy negb].
  rewrite (bind_run _ _ _ _ _ (run_get k st Hk)).
  destruct Hentry as [->|(t & ps & -> & Hparse & Hown)]; [reflexivity|].
  change (default VNull (Some (VStr t))) with (VStr t).
  rewrite (truthy_text t _ Hparse). cbn [negb].
  rewrite (bind_lift _ _ _ (VObj ps)) by assumption.
  cbn [truthy].
  rewrite (bind_lift _ _ _ (c :: f)) by reflexivity.
  rewrite (bind_lift _ _ _ VUndefined) by now apply get_prop_missing.
  reflexivity.
Qed.

Lemma own_delete_absent k ps : own_lookup k ps = None -> own_delete k ps = ps.
Proof.
  induction ps as [|[k' v'] ps IH]; [reflexivity|]. simpl.
  destruct (decide (k' = k)); [discriminate|]. intros H. now rewrite IH.
Qed.

(** On a hash that lacks a field whose name [Object.prototype] has,
    [hashDel] with a positive [ttl] takes the inherited value for the
    field: it writes the hash back as it was and yields "OK". *)
Lemma hashDel_inherited_field k f z t ps st :
  valid_key (VStr k) -> inherited f = true -> 0 < z ->
  entries st !! k = Some (VStr t) -> JSON_parse (VStr t) = Return (VObj ps) ->
  own_lookup f ps = None ->
  exists t',
    JSON_parse (VStr t') = Return (VObj ps)
    /\ hashDel (VStr k) (VStr f) (option1 "ttl" z) st
       = (Return (VStr (js "OK")),
          Backend (<[k := VStr t']> (entries st))
            (CallSet k (VStr t') (VNum (Int z)) :: CallGet k :: calls st)).
Proof.
  intros Hk Hf Hz Hentry Hparse Hown.
  pose proof (JSON_parse_representable _ _ Hparse) as Hps.
  destruct (JSON_round_trip _ Hps) as (t' & Hs & _ & Hp).
  exists t'. split; [exact Hp|]. unfold hashDel.
  rewrite run_check by assumption.
  destruct f as [|c f]; [discriminate Hf|]. cbn [truthy negb].
  rewrite (bind_run _ _ _ _ _ (run_get k st Hk)). rewrite Hentry.
  change (default VNull (Some (VStr t))) with (VStr t).
  rewrite (truthy_text t _ Hparse). cbn [negb].
  rewrite (bind_lift _ _ _ (VObj ps)) by assumption. cbn [truthy].
  rewrite (bind_lift _ _ _ (c :: f)) by reflexivity.
  rewrite (bind_lift _ _ _ (VInherited (c :: f)))
    by (unfold get_prop; now rewrite Hown, Hf).
  cbn [is_undefined].
  rewrite (bind_lift _ _ _ (VObj ps))
    by (unfold delete_prop; now rewrite own_delete_absent).
  rewrite (bind_lift _ _ _ (VStr t')) by assumption.
  rewrite (bind_lift _ _ _ (VNum (Int z))) by reflexivity.
  rewrite (bind_run _ _ _ _ _
             (run_set_positive k (VStr t') z _ Hk Hz eq_refl)).
  reflexivity.
Qed.

(** ** Slices *)

Lemma slice_inclusive {A} (l : list A) s e :
  0 <= s -> 0 <= e ->
  slice l s (Some (e + 1))
  = take (Z.to_nat (e + 1 - s)) (drop (Z.to_nat s) l).
Proof.
  intros Hs He. unfold slice, relative_index.
  set (len := Z.of_nat (length l)).
  destruct (Z.ltb_spec s 0); [lia|]. destruct (Z.ltb_spec (e + 1) 0); [lia|].
  destruct (Z.le_gt_cases s len) as [Hin|Hout].
  - replace (Z.min s len) with s by lia.
    destruct (Z.le_gt_cases (e + 1) len) as [Hend|Hend].
    + now replace (Z.min (e + 1) len) with (e + 1) by lia.
    + replace (Z.min (e + 1) len) with len by lia.
      rewrite !take_ge; [reflexivity| |]; rewrite length_drop; subst len; lia.
  - replace (Z.min s len) with len by lia.
    rewrite !drop_ge by (subst len; lia). now rewrite !take_nil.
Qed.

(** The elements of an inclusive slice are those at the indices from
    [start] through [end]. *)
Lemma inclusive_slice_lookup {A} (l : list A) (s e i : nat) :
  (s <= i <= e)%nat ->
  take (S e - s) (drop s l) !! (i - s)%nat = l !! i.
Proof.
  intros Hi. rewrite lookup_take_lt by lia. rewrite lookup_drop.
  f_equal. lia.
Qed.

(** When [start] and [end] are both given and neither is zero, [listGet]
    yields the elements from [start] through [end]. *)
Lemma listGet_inclusive_slice k t l (s e : nat) st :
  valid_key (VStr k) ->
  entries st !! k = Some (VStr t) -> JSON_parse (VStr t) = Return (VArr l) ->
  (0 < s)%nat -> (0 < e)%nat ->
  result_of
    (listGet (VStr k) (option2 "start" (Z.of_nat s) "end" (Z.of_nat e))) st
  = Return (VArr (take (S e - s) (drop s l))).
Proof.
  intros Hk Hentry Hparse Hs He. unfold result_of, listGet.
  rewrite (run_read k t (VArr l)) by assumption.
  rewrite (bind_lift _ _ _ false) by reflexivity.
  rewrite (bind_lift _ _ _ VUndefined) by reflexivity.
  rewrite (bind_lift _ _ _ (VNum (Int (Z.of_nat s)))) by reflexivity.
  rewrite (bind_lift _ _ _ (VNum (Int (Z.of_nat e)))) by reflexivity.
  rewrite (bind_lift _ _ _ NaN) by reflexivity.
  rewrite (bind_lift _ _ _ (Int (Z.of_nat s))) by reflexivity.
  rewrite (bind_lift _ _ _ (Int (Z.of_nat e))) by reflexivity.
  cbn [truthy num_truthy].
  destruct (Z.eqb_spec (Z.of_nat s) 0); [lia|].
  destruct (Z.eqb_spec (Z.of_nat e) 0); [lia|].
  cbn [negb andb lift call_slice num_add to_integer fmap option_fmap
       option_map fst].
  rewrite slice_inclusive by lia.
  replace (Z.to_nat (Z.of_nat e + 1 - Z.of_nat s)) with (S e - s)%nat by lia.
  now rewrite Nat2Z.id.
Qed.

(** C6, where the code departs from it: with [{start: 0, end: 0}] on the
    sequence 10, 20, 30 [listGet] yields the whole sequence, not the
    element at index 0 alone; with [{start: 1, end: 0}] it yields the
    elements from index 1 on. *)
Theorem listGet_zero_end_not_a_slice :
  let st := Backend {[ js "k" := VStr (js "[10,20,30]") ]} [] in
  result_of (listGet (VStr (js "k")) (option2 "start" 0 "end" 0)) st
  = Return (VArr [VNum (Int 10); VNum (Int 20); VNum (Int 30)])
  /\ result_of (listGet (VStr (js "k")) (option2 "start" 1 "end" 0)) st
     = Return (VArr [VNum (Int 20); VNum (Int 30)])
  /\ result_of (listGet (VStr (js "k")) (option2 "start" 1 "end" 1)) st
     = Return (VArr [VNum (Int 20)]).
Proof. vm_compute. auto. Qed.

(** ** Own properties *)

Lemma own_lookup_define_ne k k' v ps :
  k <> k' -> own_lookup k' (own_define k v ps) = own_lookup k' ps.
Proof.
  intros Hne. induction ps as [|[k0 v0] ps IH]; simpl.
  - now rewrite decide_False.
  - destruct (decide (k0 = k)) as [->|H0]; simpl.
    + now rewrite !decide_False.
    + destruct (decide (k0 = k')); [reflexivity|assumption].
Qed.



Lemma own_delete_keys k ps x :
  x ∈ map fst (own_delete k ps) -> x ∈ map fst ps.
Proof.
  induction ps as [|[k0 v0] ps IH]; simpl; [auto|].
  destruct (decide (k0 = k)); simpl; rewrite ?elem_of_cons; tauto.
Qed.

Lemma own_delete_object k ps :
  json_representable (VObj ps) = true ->
  json_representable (VObj (own_delete k ps)) = true.
Proof.
  intros H. apply representable_object in H as [Hnd Hps].
  apply object_representable.
  - induction ps as [|[k0 v0] ps IH]; simpl in *; [constructor|].
    apply NoDup_cons in Hnd as [Hk0 Hnd].
    apply andb_true_iff in Hps as [_ Hps].
    destruct (decide (k0 = k)); [auto|]. simpl. apply NoDup_cons.
    split; [|auto]. intros Hin. now apply own_delete_keys in Hin.
  - induction ps as [|[k0 v0] ps IH]; simpl in *; [reflexivity|].
    apply NoDup_cons in Hnd as [_ Hnd].
    apply andb_true_iff in Hps as [H0 Hps].
    destruct (decide (k0 = k)); [auto|]. simpl. now rewrite H0, IH.
Qed.

Lemma own_lookup_representable k v ps :
  json_representable (VObj ps) = true -> own_lookup k ps = Some v ->
  json_representable v = true.
Proof.
  intros H. apply representable_object in H as [_ Hps].
  induction ps as [|[k0 v0] ps IH]; simpl in *; [discriminate|].
  apply andb_true_iff in Hps as [H0 Hps].
  destruct (decide (k0 = k)); [now intros [= <-]|auto].
Qed.

Lemma representable_defined v :
  json_representable v = true -> is_undefined v = false.
Proof. now destruct v. Qed.

(** ** Sequences of representable values *)






(** ** [undefined] through JSON *)



(** ** Options objects *)

Lemma get_prop_index i s e :
  get_prop (list_options i s e) (js "index") = Return (member_value i).
Proof. destruct i, s, e; reflexivity. Qed.

Lemma get_prop_start i s e :
  get_prop (list_options i s e) (js "start") = Return (member_value s).
Proof. destruct i, s, e; reflexivity. Qed.

Lemma get_prop_end i s e :
  get_prop (list_options i s e) (js "end") = Return (member_value e).
Proof. destruct i, s, e; reflexivity. Qed.

Lemma no_options_list_options i s e :
  no_options (list_options i s e)
  = Return (match i, s, e with None, None, None => true | _, _, _ => false end).
Proof. destruct i, s, e; reflexivity. Qed.



Lemma ToNumber_member_value n : ToNumber (member_value n) = Return (given n).
Proof. now destruct n. Qed.

(** ** Reading a sequence and writing one *)

Lemma run_read_list {A} k l (f : value -> M A) st :
  valid_key (VStr k) -> holds_list k st l ->
  (let* text := get (VStr k) in
   let* decoded :=
     (if truthy text then lift (JSON_parse text) else ret (VArr [])) in
   f decoded) st
  = f (VArr l) (Backend (entries st) (CallGet k :: calls st)).
Proof.
  intros Hk [[Habsent ->]|(t & Hentry & Hparse)].
  - now apply run_read_absent.
  - now apply (run_read k t).
Qed.


Lemma holds_hash_representable k st ps :
  holds_hash_or_nothing k st ps -> json_representable (VObj ps) = true.
Proof.
  intros [[_ ->]|(t & _ & Hparse)]; [reflexivity|].
  apply (JSON_parse_representable _ _ Hparse).
Qed.

(** The text [JSON.stringify] writes for [v] when it is the text of a
    representable [v']. *)
Lemma stringify_as v v' :
  json_representable v' = true -> JSON_stringify v = JSON_stringify v' ->
  exists t, JSON_stringify v = Return (VStr t)
            /\ JSON_parse (VStr t) = Return v'.
Proof.
  intros Hv' Heq. destruct (JSON_round_trip v' Hv') as (t & Hs & _ & Hp).
  exists t. now rewrite Heq.
Qed.

(** Encoding [v] and writing it with a positive [ttl] stores what it
    decodes to. *)
Lemma run_store {A} k v v' z (f : value -> M A) st :
  valid_key (VStr k) -> 0 < z ->
  json_representable v' = true -> JSON_stringify v = JSON_stringify v' ->
  exists t,
    JSON_parse (VStr t) = Return v'
    /\ (let* text := lift (JSON_stringify v) in
        let* stored := set (VStr k) text (VNum (Int z)) in
        f stored) st
       = f (VStr t)
           (Backend (<[k := VStr t]> (entries st))
              (CallSet k (VStr t) (VNum (Int z)) :: calls st)).
Proof.
  intros Hk Hz Hv' Heq. destruct (stringify_as v v' Hv' Heq) as (t & Hs & Hp).
  exists t. split; [assumption|].
  rewrite (bind_lift _ _ _ (VStr t)) by assumption.
  now rewrite (bind_run _ _ _ _ _
                 (run_set_positive k (VStr t) z st Hk Hz eq_refl)).
Qed.



Lemma stores_lookup k v st st' :
  stores k v st st' ->
  exists t, entries st' !! k = Some (VStr t) /\ JSON_parse (VStr t) = Return v.
Proof.
  intros (t & Hst & Hp). exists t. split; [|assumption].
  rewrite Hst. apply lookup_insert_eq.
Qed.

(** ** What the operations leave alone *)

Lemma keeps_ret {A} (a : A) : keeps_entries (ret a).
Proof. intros st. reflexivity. Qed.

Lemma keeps_throw {A} e : keeps_entries (@throw A e).
Proof. intros st. reflexivity. Qed.

Lemma keeps_lift {A} (o : outcome A) : keeps_entries (lift o).
Proof. intros st. reflexivity. Qed.

Lemma keeps_bind {A B} (m : M A) (f : A -> M B) :
  keeps_entries m -> (forall a, keeps_entries (f a)) -> keeps_entries (bind m f).
Proof.
  unfold keeps_entries, state_after, bind. intros Hm Hf st.
  specialize (Hm st).
  destruct (m st) as [[a| |] st1]; simpl in *; try assumption.
  now rewrite (Hf a st1).
Qed.

Lemma keeps_getAsync key : keeps_entries (getAsync key).
Proof. intros st. now destruct key. Qed.

Lemma keeps_get key : keeps_entries (get key).
Proof. apply keeps_bind; [apply keeps_lift|intros _; apply keeps_getAsync]. Qed.

Lemma keeps_touches {A} k (m : M A) : keeps_entries m -> touches_only k m.
Proof. intros H st k' _. now rewrite H. Qed.

Lemma touches_bind {A B} k (m : M A) (f : A -> M B) :
  touches_only k m -> (forall a, touches_only k (f a)) ->
  touches_only k (bind m f).
Proof.
  unfold touches_only, state_after, bind. intros Hm Hf st k' Hk'.
  specialize (Hm st k' Hk').
  destruct (m st) as [[a| |] st1]; simpl in *; try assumption.
  now rewrite (Hf a st1 k' Hk').
Qed.

Lemma touches_set k data ttl : touches_only k (set (VStr k) data ttl).
Proof.
  apply touches_bind; [apply keeps_touches, keeps_lift|intros _].
  apply touches_bind; [apply keeps_touches, keeps_lift|intros n].
  destruct (_ || _); [apply keeps_touches, keeps_throw|].
  intros st k' Hk'. simpl. now apply lookup_insert_ne.
Qed.

Lemma touches_del k : touches_only k (del (VStr k)).
Proof.
  apply touches_bind; [apply keeps_touches, keeps_lift|intros _].
  apply touches_bind; [|intros _; apply keeps_touches, keeps_ret].
  intros st k' Hk'. simpl. now apply lookup_delete_ne.
Qed.

Lemma keeps_writes {A} (m : M A) : keeps_entries m -> writes_only_on_return m.
Proof. intros H st. right. apply H. Qed.

Lemma writes_bind {A B} (m : M A) (f : A -> M B) :
  keeps_entries m -> (forall a, writes_only_on_return (f a)) ->
  writes_only_on_return (bind m f).
Proof.
  unfold keeps_entries, writes_only_on_return, result_of, state_after, bind.
  intros Hm Hf st. specialize (Hm st).
  destruct (m st) as [[a| |] st1]; simpl in *; try (now right).
  destruct (Hf a st1) as [Hret|Hsame]; [now left|right].
  now rewrite Hsame.
Qed.

Lemma writes_then_ret {A B} (m : M A) (b : B) :
  writes_only_on_return m -> writes_only_on_return (m;;; ret b).
Proof.
  unfold writes_only_on_return, result_of, state_after, bind. intros Hm st.
  destruct (Hm st) as [(a & Ha)|Hsame].
  - left. exists b. destruct (m st) as [[a'| |] st1]; simpl in *;
      [reflexivity|discriminate|discriminate].
  - destruct (m st) as [[a'| |] st1]; simpl in *; [left; eauto|now right..].
Qed.

Lemma writes_setAsync key data ttl : writes_only_on_return (setAsync key data ttl).
Proof. intros st. destruct key; try (now right). left. eexists. reflexivity. Qed.

Lemma writes_set key data ttl : writes_only_on_return (set key data ttl).
Proof.
  apply writes_bind; [apply keeps_lift|intros _].
  apply writes_bind; [apply keeps_lift|intros n].
  destruct (_ || _); [apply keeps_writes, keeps_throw|apply writes_setAsync].
Qed.

Lemma writes_del key : writes_only_on_return (del key).
Proof.
  apply writes_bind; [apply keeps_lift|intros _].
  apply writes_then_ret. intros st. destruct key; try (now right).
  left. eexists. reflexivity.
Qed.

Ltac keeps :=
  repeat first
    [ apply keeps_lift | apply keeps_ret | apply keeps_throw | apply keeps_get
    | apply keeps_bind; [|intros ?]
    | match goal with
      | |- context [if ?b then _ else _] => destruct b
      end ].

Ltac touches :=
  cbv zeta;
  repeat first
    [ apply touches_set | apply touches_del
    | apply keeps_touches; solve [keeps]
    | apply touches_bind; [|intros ?]
    | match goal with
      | |- context [if ?b then _ else _] => destruct b
      end ].

Ltac writes :=
  cbv zeta;
  repeat first
    [ apply writes_set | apply writes_del
    | apply keeps_writes; solve [keeps]
    | apply writes_then_ret
    | apply writes_bind; [solve [keeps]|intros ?]
    | match goal with
      | |- context [if ?b then _ else _] => destruct b
      end ].

(** X1: the operations that read leave every entry as it was, whatever their
    arguments and whatever they yield. *)
Theorem reads_keep_entries key field options :
  keeps_entries (get key)
  /\ keeps_entries (hashGet key field)
  /\ keeps_entries (listGet key options).
Proof. split_and!; unfold hashGet, listGet; cbv zeta; keeps. Qed.

(** X2: no operation changes the entry of a key other than its own. *)
Theorem operations_touch_only_their_key k field data ttl options :
  touches_only k (get (VStr k))
  /\ touches_only k (set (VStr k) data ttl)
  /\ touches_only k (del (VStr k))
  /\ touches_only k (hashSet (VStr k) field data ttl)
  /\ touches_only k (hashGet (VStr k) field)
  /\ touches_only k (hashDel (VStr k) field options)
  /\ touches_only k (listSet (VStr k) data ttl options)
  /\ touches_only k (listGet (VStr k) options)
  /\ touches_only k (listDel (VStr k) ttl options).
Proof.
  split_and!; unfold hashSet, hashGet, hashDel, listSet, listGet, listDel;
    touches.
Qed.

(** X3: an operation that does not return has changed no entry: the one
    write of an operation is its last step. *)
Theorem operations_write_only_on_return key field data ttl options :
  writes_only_on_return (set key data ttl)
  /\ writes_only_on_return (del key)
  /\ writes_only_on_return (hashSet key field data ttl)
  /\ writes_only_on_return (hashDel key field options)
  /\ writes_only_on_return (listSet key data ttl options)
  /\ writes_only_on_return (listDel key ttl options).
Proof.
  split_and!; unfold hashSet, hashDel, listSet, listDel; writes.
Qed.

(** ** Hashes: writing a field *)

(** Running [hashSet] up to the test of the field. *)
Lemma run_hashSet k field data ttl ps st :
  valid_key (VStr k) -> holds_hash_or_nothing k st ps ->
  hashSet (VStr k) field data ttl st
  = (if is_string field then
       let* hash :=
         lift (f ← to_property_key field; set_prop (VObj ps) f data) in
       let* text := lift (JSON_stringify hash) in
       set (VStr k) text ttl;;; ret VUndefined
     else throw (Error "The field name must be a string"))
      (Backend (entries st) (hash_reads k st ++ calls st)).
Proof.
  intros Hk Hholds. unfold hashSet, hash_reads.
  rewrite run_check by assumption.
  rewrite (bind_run _ _ _ _ _ (run_get k st Hk)).
  destruct Hholds as [[Habsent ->]|(t & Hentry & Hparse)].
  - rewrite Habsent. reflexivity.
  - rewrite Hentry. change (default VNull (Some (VStr t))) with (VStr t).
    rewrite (truthy_text t _ Hparse). unfold bind at 1.
    rewrite (bind_run _ _ _ _ _ (run_get k _ Hk)). cbn [entries].
    rewrite Hentry. change (default VNull (Some (VStr t))) with (VStr t).
    unfold lift at 1. rewrite Hparse. reflexivity.
Qed.




(** Reading a hash. *)
Lemma run_hashGet k t hash field st :
  valid_key (VStr k) ->
  entries st !! k = Some (VStr t) -> JSON_parse (VStr t) = Return hash ->
  hashGet (VStr k) field st
  = (if truthy field then f ← to_property_key field; get_prop hash f
     else Return hash,
     Backend (entries st) (CallGet k :: calls st)).
Proof.
  intros Hk Hentry Hparse. unfold hashGet. rewrite run_check by assumption.
  rewrite (run_read k t hash) by assumption. now destruct (truthy field).
Qed.

(** X5: on a key that holds a hash, [hashGet] of a non-empty field yields
    the value of the field, or [undefined] when the hash lacks the field and
    the name is not one [Object.prototype] has; without a field it yields
    the hash. *)
Theorem hashGet_reads_field k t ps f st :
  valid_key (VStr k) -> f <> [] ->
  entries st !! k = Some (VStr t) -> JSON_parse (VStr t) = Return (VObj ps) ->
  (forall v, own_lookup f ps = Some v ->
     result_of (hashGet (VStr k) (VStr f)) st = Return v)
  /\ (own_lookup f ps = None -> inherited f = false ->
      result_of (hashGet (VStr k) (VStr f)) st = Return VUndefined)
  /\ result_of (hashGet (VStr k) VUndefined) st = Return (VObj ps).
Proof.
  intros Hk Hf Hentry Hparse. unfold result_of.
  rewrite !(run_hashGet k t (VObj ps)) by assumption.
  destruct f as [|c f]; [contradiction|]. cbn [fst truthy to_property_key].
  rewrite bind_return. split_and!.
  - intros v Hv. now apply get_prop_own.
  - intros Hnone Hinh. now apply get_prop_missing.
  - reflexivity.
Qed.

Lemma hashGet_reads_field_witness :
  result_of (hashGet (VStr (js "k")) (VStr (js "g"))) (st_k "{}")
  = Return VUndefined.
Proof.
  apply (hashGet_reads_field (js "k") (js "{}") [] (js "g") (st_k "{}"));
    [reflexivity | discriminate | reflexivity | reflexivity
    | reflexivity | reflexivity].
Defined.





(** X8: on a key that holds a hash or nothing, [hashSet] with a field that
    is not a string reads the key, once when it holds nothing and twice
    when it holds a hash, then fails with "The field name must be a
    string"; it sends no write. *)
Theorem hashSet_field_not_string k field data ttl ps st :
  valid_key (VStr k) -> is_string field = false ->
  holds_hash_or_nothing k st ps ->
  hashSet (VStr k) field data ttl st
  = (Throw (Error "The field name must be a string"),
     Backend (entries st) (hash_reads k st ++ calls st)).
Proof.
  intros Hk Hfield Hholds.
  rewrite (run_hashSet k field data ttl ps st Hk Hholds).
  now rewrite Hfield.
Qed.

Lemma hashSet_field_not_string_witness :
  hashSet (VStr (js "k")) (VNum (Int 5)) (VNum (Int 1)) (VNum (Int 10)) st_a1
  = (Throw (Error "The field name must be a string"),
     Backend (entries st_a1) [CallGet (js "k"); CallGet (js "k")]).
Proof.
  apply (hashSet_field_not_string (js "k") (VNum (Int 5)) (VNum (Int 1))
           (VNum (Int 10)) [(js "a", VNum (Int 1))] st_a1);
    [reflexivity | reflexivity |].
  right. exists text_a1. split; reflexivity.
Defined.

(** X9: on a key that holds a hash or nothing, [hashSet] with a string
    field other than [__proto__], a representable value and a [ttl] whose
    number is [NaN] or 0 (missing, [null], [false], 0) fails with "Invalid
    arguments for set operation" only once the key is read, once when it
    holds nothing and twice when it holds a hash; it sends no write. *)
Theorem hashSet_needs_ttl k f v ttl n ps st :
  valid_key (VStr k) -> f <> proto_key -> json_representable v = true ->
  holds_hash_or_nothing k st ps ->
  ToNumber ttl = Return n -> num_truthy n = false ->
  hashSet (VStr k) (VStr f) v ttl st
  = (Throw (Error "Invalid arguments for set operation"),
     Backend (entries st) (hash_reads k st ++ calls st)).
Proof.
  intros Hk Hf Hv Hholds Hn Hfalsy.
  rewrite (run_hashSet k (VStr f) v ttl ps st Hk Hholds).
  cbn [is_string to_property_key]. rewrite bind_return.
  pose proof (own_define_object f v ps Hv (holds_hash_representable _ _ _ Hholds))
    as Hnew.
  rewrite (bind_lift _ _ _ (VObj (own_define f v ps)))
    by now apply set_prop_own_field.
  destruct (JSON_round_trip _ Hnew) as (t & Hs & _ & _).
  rewrite (bind_lift _ _ _ (VStr t)) by assumption.
  apply bind_throw.
  rewrite (run_set k (VStr t) ttl n _ Hk Hn). now rewrite Hfalsy.
Qed.

Lemma hashSet_needs_ttl_witness :
  hashSet (VStr (js "k")) (VStr (js "b")) (VNum (Int 2)) VUndefined st_a1
  = (Throw (Error "Invalid arguments for set operation"),
     Backend (entries st_a1) [CallGet (js "k"); CallGet (js "k")]).
Proof.
  apply (hashSet_needs_ttl (js "k") (js "b") (VNum (Int 2)) VUndefined NaN
           [(js "a", VNum (Int 1))] st_a1);
    [reflexivity | discriminate | reflexivity | | reflexivity | reflexivity].
  right. exists text_a1. split; reflexivity.
Defined.

(** ** Hashes: deleting a field *)

(** Running [hashDel] of a field the hash has. *)
Lemma run_hashDel k t ps f v options st :
  valid_key (VStr k) -> f <> [] ->
  entries st !! k = Some (VStr t) -> JSON_parse (VStr t) = Return (VObj ps) ->
  own_lookup f ps = Some v -> is_undefined v = false ->
  hashDel (VStr k) (VStr f) options st
  = (let* text := lift (JSON_stringify (VObj (own_delete f ps))) in
     let* ttl := lift (get_prop options (js "ttl")) in
     set (VStr k) text ttl;;; ret (VStr (js "OK")))
      (Backend (entries st) (CallGet k :: calls st)).
Proof.
  intros Hk Hf Hentry Hparse Hown Hv. unfold hashDel.
  rewrite run_check by assumption.
  destruct f as [|c f]; [contradiction|]. cbn [truthy negb].
  rewrite (bind_run _ _ _ _ _ (run_get k st Hk)). rewrite Hentry.
  change (default VNull (Some (VStr t))) with (VStr t).
  rewrite (truthy_text t _ Hparse). cbn [negb].
  rewrite (bind_lift _ _ _ (VObj ps)) by assumption. cbn [truthy].
  rewrite (bind_lift _ _ _ (c :: f)) by reflexivity.
  rewrite (bind_lift _ _ _ v) by now apply get_prop_own.
  rewrite Hv.
  now rewrite (bind_lift _ _ _ (VObj (own_delete (c :: f) ps))) by reflexivity.
Qed.



(** X11: on a hash that has the field, the field name not empty, [hashDel]
    without options throws a [TypeError], and with options whose [ttl] is
    missing, [NaN] or zero it fails with "Invalid arguments for set
    operation"; either way the key is read once and the entry stays as it
    was. *)
Theorem hashDel_needs_ttl k t ps f v options st :
  valid_key (VStr k) -> f <> [] ->
  entries st !! k = Some (VStr t) -> JSON_parse (VStr t) = Return (VObj ps) ->
  own_lookup f ps = Some v ->
  (options = VUndefined ->
   hashDel (VStr k) (VStr f) options st
   = (Throw TypeError, Backend (entries st) (CallGet k :: calls st)))
  /\ (forall qs ttl n,
        options = VObj qs -> get_prop options (js "ttl") = Return ttl ->
        ToNumber ttl = Return n -> num_truthy n = false ->
        hashDel (VStr k) (VStr f) options st
        = (Throw (Error "Invalid arguments for set operation"),
           Backend (entries st) (CallGet k :: calls st))).
Proof.
  intros Hk Hf Hentry Hparse Hown.
  pose proof (JSON_parse_representable _ _ Hparse) as Hps.
  rewrite (run_hashDel k t ps f v) by
    (try assumption;
     apply representable_defined, (own_lookup_representable f v ps Hps Hown)).
  destruct (JSON_round_trip _ (own_delete_object f ps Hps)) as (t' & Hs & _ & Hp).
  rewrite (bind_lift _ _ _ (VStr t')) by assumption.
  split.
  - intros ->. reflexivity.
  - intros qs ttl n -> Httl Hn Hfalsy.
    rewrite (bind_lift _ _ _ ttl) by assumption.
    apply bind_throw.
    rewrite (run_set k (VStr t') ttl n _ Hk Hn). now rewrite Hfalsy.
Qed.

Lemma hashDel_needs_ttl_witness :
  hashDel (VStr (js "k")) (VStr (js "a")) VUndefined st_a1
  = (Throw TypeError,
     Backend (entries st_a1) (CallGet (js "k") :: calls st_a1)).
Proof.
  apply (hashDel_needs_ttl (js "k") text_a1 [(js "a", VNum (Int 1))] (js "a")
           (VNum (Int 1)) VUndefined st_a1);
    [reflexivity | discriminate | reflexivity | reflexivity | reflexivity
    | reflexivity].
Defined.

(** ** Positions in a sequence *)




Lemma slice_tail {A} (l : list A) (s : nat) :
  slice l (Z.of_nat s) None = drop s l.
Proof.
  unfold slice, relative_index. set (len := Z.of_nat (length l)).
  destruct (Z.ltb_spec (Z.of_nat s) 0); [lia|].
  rewrite take_ge by (rewrite length_drop; subst len; lia).
  destruct (le_gt_dec (length l) s) as [Hout|Hin].
  - rewrite !drop_ge; [reflexivity|lia|subst len; lia].
  - f_equal. subst len. lia.
Qed.

Lemma slice_head {A} (l : list A) (e : nat) :
  slice l 0 (Some (Z.of_nat e + 1)) = take (S e) l.
Proof.
  rewrite slice_inclusive by lia. simpl drop. f_equal. lia.
Qed.

(** ** Lists: adding an element *)








(** ** Lists: reading *)

Lemma no_options_given i s e :
  (i <> None \/ s <> None \/ e <> None) ->
  no_options (list_options i s e) = Return false.
Proof.
  intros H. rewrite no_options_list_options.
  destruct i, s, e; try reflexivity. destruct H as [H|[H|H]]; contradiction.
Qed.

Lemma run_listGet k t list i s e st :
  valid_key (VStr k) ->
  entries st !! k = Some (VStr t) -> JSON_parse (VStr t) = Return list ->
  (i <> None \/ s <> None \/ e <> None) ->
  listGet (VStr k) (list_options i s e) st
  = ((if truthy list then
        if nonzero i then lift (get_index list (given i))
        else if nonzero s && nonzero e then
          lift (call_slice list (given s) (Some (num_add (given e) (Int 1))))
        else if nonzero s && negb (nonzero e) then
          lift (call_slice list (given s) None)
        else if negb (nonzero s) && nonzero e then
          lift (call_slice list (Int 0) (Some (num_add (given e) (Int 1))))
        else if negb (nonzero s) && negb (nonzero e) then ret list
        else ret VUndefined
      else ret VUndefined) : M value)
      (Backend (entries st) (CallGet k :: calls st)).
Proof.
  intros Hk Hentry Hparse Hgiven. unfold listGet.
  change (default_param (list_options i s e) (VObj []))
    with (list_options i s e).
  rewrite (run_read k t list) by assumption.
  rewrite (bind_lift _ _ _ _ (no_options_given i s e Hgiven)).
  rewrite (bind_lift _ _ _ _ (get_prop_index i s e)).
  rewrite (bind_lift _ _ _ _ (get_prop_start i s e)).
  rewrite (bind_lift _ _ _ _ (get_prop_end i s e)).
  rewrite (bind_lift _ _ _ _ (ToNumber_member_value i)).
  rewrite (bind_lift _ _ _ _ (ToNumber_member_value s)).
  rewrite (bind_lift _ _ _ _ (ToNumber_member_value e)).
  reflexivity.
Qed.

Lemma nonzero_positive (n : nat) : (0 < n)%nat -> nonzero (Some (Z.of_nat n)) = true.
Proof.
  intros Hn. unfold nonzero, given, num_truthy. simpl.
  now destruct (Z.eqb_spec (Z.of_nat n) 0); [lia|].
Qed.

(** X15: on a key that holds a list, [listGet] with an index [n] above 0
    yields the element at [n], or [undefined] past the end, whatever [start]
    and [end] are. *)
Theorem listGet_index k t l (n : nat) s e st :
  valid_key (VStr k) ->
  entries st !! k = Some (VStr t) -> JSON_parse (VStr t) = Return (VArr l) ->
  (0 < n)%nat ->
  result_of (listGet (VStr k) (list_options (Some (Z.of_nat n)) s e)) st
  = Return (default VUndefined (l !! n)).
Proof.
  intros Hk Hentry Hparse Hn. unfold result_of.
  rewrite (run_listGet k t (VArr l)) by (try assumption; left; discriminate).
  cbn [truthy]. rewrite (nonzero_positive n Hn).
  cbn [lift fst given get_index].
  destruct (Z.leb_spec 0 (Z.of_nat n)); [|lia]. now rewrite Nat2Z.id.
Qed.

Lemma listGet_index_witness :
  result_of (listGet (VStr (js "k")) (list_options (Some 2) (Some 1) None))
    (st_k "[10,20,30]")
  = Return (VNum (Int 30)).
Proof.
  apply (listGet_index (js "k") (js "[10,20,30]")
           [VNum (Int 10); VNum (Int 20); VNum (Int 30)] 2 (Some 1) None
           (st_k "[10,20,30]"));
    [reflexivity | reflexivity | reflexivity | lia].
Defined.

(** X16: on a key that holds a list, [listGet] with no index or the index 0
    and only a [start] above 0 yields the elements from [start] on; with
    only an [end] above 0 it yields the elements up to [end], that one
    included. A bound that is 0 counts as not given. *)
Theorem listGet_one_bound k t l (n : nat) i other st :
  valid_key (VStr k) ->
  entries st !! k = Some (VStr t) -> JSON_parse (VStr t) = Return (VArr l) ->
  nonzero i = false -> nonzero other = false -> (0 < n)%nat ->
  result_of (listGet (VStr k) (list_options i (Some (Z.of_nat n)) other)) st
  = Return (VArr (drop n l))
  /\ result_of (listGet (VStr k) (list_options i other (Some (Z.of_nat n)))) st
     = Return (VArr (take (S n) l)).
Proof.
  intros Hk Hentry Hparse Hi Hother Hn. unfold result_of.
  rewrite !(run_listGet k t (VArr l))
    by (try assumption; right; (left + right); discriminate).
  cbn [truthy]. rewrite Hi, Hother, (nonzero_positive n Hn).
  cbn [andb negb lift fst call_slice given num_add to_integer fmap
       option_fmap option_map].
  now rewrite slice_tail, slice_head.
Qed.

Lemma listGet_one_bound_witness :
  result_of (listGet (VStr (js "k")) (list_options None (Some 1) None))
    (st_k "[10,20,30]")
  = Return (VArr [VNum (Int 20); VNum (Int 30)]).
Proof.
  apply (listGet_one_bound (js "k") (js "[10,20,30]")
           [VNum (Int 10); VNum (Int 20); VNum (Int 30)] 1 None None
           (st_k "[10,20,30]"));
    [reflexivity | reflexivity | reflexivity | reflexivity | reflexivity
    | lia].
Defined.

(** X17: on a key that holds a list, [listGet] with options of which none is
    other than 0 yields the whole list: the index 0 does not select the
    first element. *)
Theorem listGet_zero_options_whole k t l i s e st :
  valid_key (VStr k) ->
  entries st !! k = Some (VStr t) -> JSON_parse (VStr t) = Return (VArr l) ->
  nonzero i = false -> nonzero s = false -> nonzero e = false ->
  result_of (listGet (VStr k) (list_options i s e)) st = Return (VArr l).
Proof.
  intros Hk Hentry Hparse Hi Hs He. unfold result_of.
  destruct (decide (i = None /\ s = None /\ e = None)) as [(-> & -> & ->)|Hsome].
  - unfold listGet. change (default_param (list_options None None None) (VObj []))
      with (VObj []).
    now rewrite (run_read k t (VArr l)) by assumption.
  - rewrite (run_listGet k t (VArr l)); try assumption.
    + cbn [truthy]. now rewrite Hi, Hs, He.
    + destruct i, s, e; try (left; discriminate);
        try (right; left; discriminate); try (right; right; discriminate).
      exfalso. now apply Hsome.
Qed.

Lemma listGet_zero_options_whole_witness :
  result_of (listGet (VStr (js "k")) (list_options (Some 0) None None))
    (st_k "[10,20,30]")
  = Return (VArr [VNum (Int 10); VNum (Int 20); VNum (Int 30)]).
Proof.
  apply (listGet_zero_options_whole (js "k") (js "[10,20,30]")
           [VNum (Int 10); VNum (Int 20); VNum (Int 30)] (Some 0) None None
           (st_k "[10,20,30]"));
    reflexivity.
Defined.

(** X18: on a key the backend does not hold, [listGet] yields [undefined],
    with or without options. *)
Theorem listGet_absent_key k i s e st :
  valid_key (VStr k) -> entries st !! k = None ->
  result_of (listGet (VStr k) VUndefined) st = Return VUndefined
  /\ result_of (listGet (VStr k) (list_options i s e)) st = Return VUndefined.
Proof.
  intros Hk Habsent. unfold result_of, listGet. split.
  - now rewrite (run_read_absent k) by assumption.
  - change (default_param (list_options i s e) (VObj []))
      with (list_options i s e).
    rewrite (run_read_absent k) by assumption.
    rewrite (bind_lift _ _ _ _ (no_options_list_options i s e)).
    destruct i, s, e; try reflexivity;
      rewrite (bind_lift _ _ _ _ (get_prop_index _ _ _));
      rewrite (bind_lift _ _ _ _ (get_prop_start _ _ _));
      rewrite (bind_lift _ _ _ _ (get_prop_end _ _ _));
      reflexivity.
Qed.

Lemma listGet_absent_key_witness :
  result_of (listGet (VStr (js "k")) (list_options (Some 1) None None))
    (Backend ∅ [])
  = Return VUndefined.
Proof.
  apply (listGet_absent_key (js "k") (Some 1) None None (Backend ∅ []));
    reflexivity.
Defined.

(** ** Lists: deleting *)

(** X19: [listDel] without options, with [null] or with an empty object
    deletes the key, whatever it holds, as [del] does, and yields "OK". *)
Theorem listDel_without_options_deletes k ttl options st :
  valid_key (VStr k) ->
  options = VUndefined \/ options = VNull \/ options = VObj [] ->
  listDel (VStr k) ttl options st
  = (Return (VStr (js "OK")),
     Backend (delete k (entries st)) (CallDel k :: calls st)).
Proof.
  intros Hk Hoptions. unfold listDel. rewrite run_check by assumption.
  destruct Hoptions as [->|[->| ->]];
    (rewrite (bind_lift _ _ _ true) by reflexivity); now apply run_del.
Qed.

Lemma listDel_without_options_deletes_witness :
  listDel (VStr (js "k")) VUndefined VUndefined (st_k "[1,2]")
  = (Return (VStr (js "OK")),
     Backend (delete (js "k") (entries (st_k "[1,2]")))
       (CallDel (js "k") :: calls (st_k "[1,2]"))).
Proof.
  apply (listDel_without_options_deletes (js "k") VUndefined VUndefined
           (st_k "[1,2]")); [reflexivity | left; reflexivity].
Defined.

Lemma run_listDel k ttl i s e l st :
  valid_key (VStr k) -> holds_list k st l ->
  (i <> None \/ s <> None \/ e <> None) ->
  listDel (VStr k) ttl (list_options i s e) st
  = (if decide (l = []) then ret VUndefined
     else
       let* list :=
         lift (if nonneg i then call_splice (VArr l) (given i) (Some (Int 1))
               else if nonneg s && nonneg e then
                 call_splice (VArr l) (given s)
                   (Some (num_add (num_sub (given e) (given s)) (Int 1)))
               else if nonneg s then call_splice (VArr l) (given s) None
               else if nonneg e then
                 call_splice (VArr l) (Int 0)
                   (Some (num_add (given e) (Int 1)))
               else clear_length (VArr l)) in
       let* text := lift (JSON_stringify list) in
       set (VStr k) text ttl;;; ret VUndefined)
      (Backend (entries st) (CallGet k :: calls st)).
Proof.
  intros Hk Hholds Hgiven. unfold listDel.
  change (default_param (list_options i s e) (VObj []))
    with (list_options i s e).
  rewrite run_check by assumption.
  rewrite (bind_lift _ _ _ _ (no_options_given i s e Hgiven)).
  rewrite (run_read_list k l) by assumption.
  rewrite (bind_lift _ _ _ (VNum (Int (Z.of_nat (length l))))) by reflexivity.
  destruct l as [|x l]; [reflexivity|]. rewrite decide_False by discriminate.
  replace (truthy (VNum (Int (Z.of_nat (length (x :: l)))))) with true
    by (simpl; destruct (Z.eqb_spec (Z.pos (Pos.of_succ_nat (length l))) 0);
        [lia|reflexivity]).
  cbn [negb].
  rewrite (bind_lift _ _ _ _ (get_prop_index i s e)).
  rewrite (bind_lift _ _ _ _ (get_prop_start i s e)).
  rewrite (bind_lift _ _ _ _ (get_prop_end i s e)).
  rewrite (bind_lift _ _ _ _ (ToNumber_member_value i)).
  rewrite (bind_lift _ _ _ _ (ToNumber_member_value s)).
  rewrite (bind_lift _ _ _ _ (ToNumber_member_value e)).
  reflexivity.
Qed.

(** X20: on a key that holds nothing or the empty list, [listDel] with
    options yields [undefined] after one read and writes nothing. *)
Theorem listDel_empty_list_untouched k ttl i s e st :
  valid_key (VStr k) -> holds_list k st [] ->
  (i <> None \/ s <> None \/ e <> None) ->
  listDel (VStr k) ttl (list_options i s e) st
  = (Return VUndefined, Backend (entries st) (CallGet k :: calls st)).
Proof.
  intros Hk Hholds Hgiven. now rewrite (run_listDel k ttl i s e []).
Qed.

Lemma listDel_empty_list_untouched_witness :
  listDel (VStr (js "k")) (VNum (Int 10)) (list_options (Some 0) None None)
    (st_k "[]")
  = (Return VUndefined,
     Backend (entries (st_k "[]")) (CallGet (js "k") :: calls (st_k "[]"))).
Proof.
  apply (listDel_empty_list_untouched (js "k") (VNum (Int 10)) (Some 0) None
           None (st_k "[]")); [reflexivity | | left; discriminate].
  right. exists (js "[]"). split; reflexivity.
Defined.

(** What [listDel] stores once the elements to keep are known. *)
Lemma listDel_stores k z i s e l kept st :
  valid_key (VStr k) -> 0 < z -> holds_list k st l -> l <> [] ->
  (i <> None \/ s <> None \/ e <> None) ->
  (if nonneg i then call_splice (VArr l) (given i) (Some (Int 1))
   else if nonneg s && nonneg e then
     call_splice (VArr l) (given s)
       (Some (num_add (num_sub (given e) (given s)) (Int 1)))
   else if nonneg s then call_splice (VArr l) (given s) None
   else if nonneg e then
     call_splice (VArr l) (Int 0) (Some (num_add (given e) (Int 1)))
   else clear_length (VArr l)) = Return (VArr kept) ->
  json_representable (VArr kept) = true ->
  result_of (listDel (VStr k) (VNum (Int z)) (list_options i s e)) st
  = Return VUndefined
  /\ stores k (VArr kept) st
       (state_after (listDel (VStr k) (VNum (Int z)) (list_options i s e)) st).
Proof.
  intros Hk Hz Hholds Hl Hgiven Hkept Hrep. unfold result_of, state_after.
  rewrite (run_listDel k _ i s e l) by assumption.
  rewrite decide_False by assumption.
  rewrite (bind_lift _ _ _ _ Hkept).
  destruct (run_store k (VArr kept) (VArr kept) z (fun _ => ret VUndefined)
              (Backend (entries st) (CallGet k :: calls st)) Hk Hz Hrep eq_refl)
    as (t & Hp & ->).
  split; [reflexivity|]. now exists t.
Qed.








(** X24: on a key that holds a non-empty list, [listDel] with a positive
    [ttl] and options of which none is 0 or more empties the list and keeps
    the key: [listGet] then yields the empty list, not [undefined]. *)
Theorem listDel_clears k z i s e l st :
  valid_key (VStr k) -> 0 < z -> holds_list k st l -> l <> [] ->
  (i <> None \/ s <> None \/ e <> None) ->
  nonneg i = false -> nonneg s = false -> nonneg e = false ->
  stores k (VArr []) st
    (state_after (listDel (VStr k) (VNum (Int z)) (list_options i s e)) st)
  /\ result_of (listGet (VStr k) VUndefined)
       (state_after (listDel (VStr k) (VNum (Int z)) (list_options i s e)) st)
     = Return (VArr []).
Proof.
  intros Hk Hz Hholds Hl Hgiven Hi Hs He.
  assert (Hst : stores k (VArr []) st
                  (state_after
                     (listDel (VStr k) (VNum (Int z)) (list_options i s e)) st)).
  { apply (listDel_stores k z i s e l); try assumption; [|reflexivity].
    now rewrite Hi, Hs, He. }
  split; [exact Hst|].
  destruct (stores_lookup _ _ _ _ Hst) as (t & Hentry & Hparse).
  unfold result_of, listGet. now rewrite (run_read k t (VArr [])).
Qed.

Lemma listDel_clears_witness :
  result_of (listGet (VStr (js "k")) VUndefined)
    (state_after
       (listDel (VStr (js "k")) (VNum (Int 10)) (list_options (Some (-1)) None None))
       (st_k "[10,20,30]"))
  = Return (VArr []).
Proof.
  apply (listDel_clears (js "k") 10 (Some (-1)) None None
           [VNum (Int 10); VNum (Int 20); VNum (Int 30)] (st_k "[10,20,30]"));
    [reflexivity | lia | | discriminate | left; discriminate | reflexivity
    | reflexivity | reflexivity].
  right. exists (js "[10,20,30]"). split; reflexivity.
Defined.

(** ** Keys that are not strings *)





(** ** Construction *)

Lemma own_lookup_absent f (qs : list (jsstring * value)) :
  f ∉ map fst qs -> own_lookup f qs = None.
Proof.
  induction qs as [|[k v] qs IH]; [reflexivity|]. simpl. intros Hf.
  rewrite decide_False by (intros ->; apply Hf; left).
  apply IH. intros H. apply Hf. now right.
Qed.

Lemma own_lookup_spread f qs ps :
  NoDup (map fst qs) ->
  own_lookup f (fold_left (fun acc m => own_define (fst m) (snd m) acc) qs ps)
  = match own_lookup f qs with
    | Some v => Some v
    | None => own_lookup f ps
    end.
Proof.
  revert ps. induction qs as [|[k v] qs IH]; intros ps Hnd; [reflexivity|].
  apply NoDup_cons in Hnd as [Hk Hnd]. cbn [fold_left fst snd own_lookup].
  rewrite IH by assumption.
  destruct (decide (k = f)) as [->|Hne].
  - now rewrite own_lookup_absent, own_lookup_define.
  - now rewrite own_lookup_define_ne.
Qed.

Lemma run_constructor connectionArgs o :
  MemcachedWrapper.constructor connectionArgs (VObj o)
  = Return
      (MemcachedWrapper.Fields
         (if truthy connectionArgs then connectionArgs
          else VStr (js "127.0.0.1:11211"))
         (VObj (fold_left (fun acc m => own_define (fst m) (snd m) acc) o
                  [(js "timeout", VNum (Int 300))]))).
Proof.
  unfold MemcachedWrapper.constructor, MemcachedWrapper.set_connectionArgs.
  destruct (truthy connectionArgs); reflexivity.
Qed.

(** X28: the wrapper built with an options object connects with the caller's
    [connectionArgs], or with 127.0.0.1:11211 when they are falsy, and with
    options that hold every member the caller gave and, for the names the
    caller left out, the defaults: [timeout] is 300 unless the caller gives
    one. *)
Theorem constructor_merges_options connectionArgs o :
  NoDup (map fst o) ->
  exists this,
    MemcachedWrapper.constructor connectionArgs (VObj o) = Return this
    /\ MemcachedWrapper.get_connectionArgs this
       = (if truthy connectionArgs then connectionArgs
          else VStr (js "127.0.0.1:11211"))
    /\ forall f,
         get_prop (MemcachedWrapper.get_options this) f
         = match own_lookup f o with
           | Some v => Return v
           | None =>
               get_prop (MemcachedWrapper.get_options MemcachedWrapper.initial)
                 f
           end.
Proof.
  intros Hnd. rewrite run_constructor. eexists. split; [reflexivity|].
  split; [reflexivity|]. intros f.
  cbn [MemcachedWrapper.get_options MemcachedWrapper.private_options
       MemcachedWrapper.initial get_prop].
  rewrite own_lookup_spread by assumption. now destruct (own_lookup f o).
Qed.

Lemma constructor_merges_options_witness :
  exists this,
    MemcachedWrapper.constructor VUndefined
      (VObj [(js "retries", VNum (Int 2))]) = Return this
    /\ MemcachedWrapper.get_connectionArgs this = VStr (js "127.0.0.1:11211")
    /\ get_prop (MemcachedWrapper.get_options this) (js "timeout")
       = Return (VNum (Int 300))
    /\ get_prop (MemcachedWrapper.get_options this) (js "retries")
       = Return (VNum (Int 2)).
Proof.
  destruct (constructor_merges_options VUndefined
              [(js "retries", VNum (Int 2))]) as (this & Hthis & Hargs & Hget).
  - apply NoDup_cons. split; [apply not_elem_of_nil|apply NoDup_nil_2].
  - exists this. split_and!; [exact Hthis | exact Hargs | |].
    + exact (Hget (js "timeout")).
    + exact (Hget (js "retries")).
Defined.

(** X29: without options, or with [null], with another falsy value or with
    an empty object for them, the wrapper keeps the default options,
    [timeout] 300 alone. *)
Theorem constructor_default_options connectionArgs options :
  truthy options = false \/ options = VObj [] ->
  exists this,
    MemcachedWrapper.constructor connectionArgs options = Return this
    /\ MemcachedWrapper.get_options this
       = VObj [(js "timeout", VNum (Int 300))].
Proof.
  intros [Hfalsy| ->].
  - unfold MemcachedWrapper.constructor, MemcachedWrapper.set_options,
      MemcachedWrapper.set_connectionArgs.
    destruct (truthy connectionArgs);
      destruct options as [| |b|[|z]|s| | |]; try discriminate;
      cbn [default_param is_undefined]; rewrite ?Hfalsy;
      eexists; split; reflexivity.
  - rewrite run_constructor. eexists. split; reflexivity.
Qed.

Lemma constructor_default_options_witness :
  exists this,
    MemcachedWrapper.constructor (VStr (js "cache:11211")) VNull = Return this
    /\ MemcachedWrapper.get_options this
       = VObj [(js "timeout", VNum (Int 300))].
Proof.
  apply (constructor_default_options (VStr (js "cache:11211")) VNull).
  left. reflexivity.
Defined.

(** X30: neither wrapper hands falsy connection arguments to its driver:
    what the caller gives is used when it is truthy, and otherwise the
    wrapper's default address, 127.0.0.1:11211 for Memcached and
    127.0.0.1:6379 for Redis. *)
Theorem connectionArgs_never_falsy connectionArgs options this :
  MemcachedWrapper.constructor connectionArgs options = Return this ->
  MemcachedWrapper.get_connectionArgs this
  = (if truthy connectionArgs then connectionArgs
     else VStr (js "127.0.0.1:11211"))
  /\ RedisWrapper.constructor connectionArgs
     = (if truthy connectionArgs then connectionArgs
        else VStr (js "127.0.0.1:6379"))
  /\ truthy (MemcachedWrapper.get_connectionArgs this) = true
  /\ truthy (RedisWrapper.constructor connectionArgs) = true.
Proof.
  unfold MemcachedWrapper.constructor, MemcachedWrapper.set_options,
    RedisWrapper.constructor, RedisWrapper.set_connectionArgs,
    MemcachedWrapper.set_connectionArgs.
  intros Hthis.
  assert (Hargs : MemcachedWrapper.get_connectionArgs this
                  = if truthy connectionArgs then connectionArgs
                    else VStr (js "127.0.0.1:11211")).
  { destruct (truthy (default_param options (VObj []))).
    - destruct (object_spread _ _) as [merged| |] eqn:E; try discriminate.
      cbn in Hthis. injection Hthis as <-.
      now destruct (truthy connectionArgs).
    - injection Hthis as <-. now destruct (truthy connectionArgs). }
  rewrite Hargs. unfold RedisWrapper.initial.
  destruct (truthy connectionArgs) eqn:E; now split_and!.
Qed.

Lemma connectionArgs_never_falsy_witness :
  RedisWrapper.constructor (VStr []) = VStr (js "127.0.0.1:6379")
  /\ truthy (RedisWrapper.constructor (VStr [])) = true.
Proof.
  destruct (connectionArgs_never_falsy (VStr []) VUndefined
              (MemcachedWrapper.Fields (VStr (js "127.0.0.1:11211"))
                 (VObj [(js "timeout", VNum (Int 300))])) eq_refl)
    as (_ & Hredis & _ & Htruthy).
  split; [exact Hredis|exact Htruthy].
Defined.
